(** * danswer: the retrieval and ranking pipeline of [search_runner.py]

    A shallow embedding of [backend/danswer/search/search_runner.py] and the
    properties of its merger, score post-processing, reranker, query
    expansion and two-stage generator.

    Numbers.  Python and numpy floats are modelled by the rationals [Q]:
    arithmetic is exact and every value is finite.  Where the program
    compares floats the model compares rationals, where it raises
    [ZeroDivisionError] the model raises it too, and where numpy would
    produce [inf] or [nan] the run is cut with [NotFinite].

    Objects.  [InferenceChunk] instances are mutable objects shared between
    lists; a list of chunks is a list of references into a heap, and
    [chunk.score = v] is a heap update.

    Left out.  Logging and the optional metrics callbacks, which read the
    chunks and return nothing to the pipeline.  The one logging call that
    can raise, [_log_top_chunk_links] on a chunk whose links lack the offset
    0, is modelled on its own; the generator is modelled for chunks on which
    that call returns. *)

From Stdlib Require Import String Ascii DecimalString.
From Stdlib Require Import List ZArith QArith Lia Lqa.
From Stdlib Require Import Permutation Sorted Bool Arith.
Import ListNotations.

Set Implicit Arguments.

(** ** Outcome of a call: a value or a raised exception *)

Inductive exn : Type :=
| ValueError          (* min/max of an empty sequence, shape mismatch, unpacking *)
| ZeroDivisionError   (* Python [/] with a zero divisor *)
| IndexError          (* list index out of range *)
| StopIteration       (* [next] on an exhausted generator *)
| NotFinite           (* numpy division by zero: inf/nan, outside [Q] *)
| CollaboratorError.  (* any exception raised by an injected model *)

Inductive result (A : Type) : Type :=
| Ok (a : A)
| Raise (e : exn).

Arguments Ok {A} a.
Arguments Raise {A} e.

Definition bind {A B : Type} (m : result A) (k : A -> result B) : result B :=
  match m with
  | Ok a => k a
  | Raise e => Raise e
  end.

Notation "x <- m ;; k" := (bind m (fun x => k))
  (at level 61, m at next level, right associativity).

Fixpoint mapM {A B : Type} (f : A -> result B) (l : list A) : result (list B) :=
  match l with
  | [] => Ok []
  | a :: t => b <- f a ;; bs <- mapM f t ;; Ok (b :: bs)
  end.

(** ** Python built-ins used by the module *)

Module Py.

(** [x < y] on floats. *)
Definition lt (x y : Q) : bool := negb (Qle_bool y x).

(** [s or 0.0]: the operand when it is truthy, else the default. *)
Definition or_zero (s : option Q) : Q :=
  match s with
  | Some q => if Qeq_bool q 0 then 0%Q else q
  | None => 0%Q
  end.

(** [min(a, b)] and [max(a, b)]: the first argument stays unless the second
    is strictly smaller (larger). *)
Definition min2 (a b : Q) : Q := if lt b a then b else a.
Definition max2 (a b : Q) : Q := if lt a b then b else a.

(** [min(xs)] and [max(xs)]: [ValueError] on an empty sequence. *)
Definition min_of (xs : list Q) : result Q :=
  match xs with
  | [] => Raise ValueError
  | x :: t => Ok (fold_left min2 t x)
  end.

Definition max_of (xs : list Q) : result Q :=
  match xs with
  | [] => Raise ValueError
  | x :: t => Ok (fold_left max2 t x)
  end.

(** [x / y] on Python floats. *)
Definition truediv (x y : Q) : result Q :=
  if Qeq_bool y 0 then Raise ZeroDivisionError else Ok (x / y)%Q.

(** [xs[:k]] and [xs[k:]]; a negative bound counts from the end. *)
Definition slice_bound {A : Type} (k : Z) (xs : list A) : nat :=
  if (0 <=? k)%Z then Z.to_nat k
  else Z.to_nat (Z.of_nat (length xs) + k).

Definition slice_to {A : Type} (k : Z) (xs : list A) : list A :=
  firstn (slice_bound k xs) xs.

Definition slice_from {A : Type} (k : Z) (xs : list A) : list A :=
  skipn (slice_bound k xs) xs.

(** [sorted(xs, key=key, reverse=True)] and [xs.sort(key=key, reverse=True)]:
    a stable sort into descending key order.  [insert_desc] places an item
    in front of the first item with a strictly smaller key, so items with
    equal keys keep the order they had. *)
Fixpoint insert_desc {A : Type} (key : A -> Q) (x : A) (l : list A) : list A :=
  match l with
  | [] => [x]
  | y :: t => if lt (key x) (key y) then y :: insert_desc key x t else x :: l
  end.

Definition sorted_desc {A : Type} (key : A -> Q) (l : list A) : list A :=
  fold_right (insert_desc key) [] l.

(** [c in s] for a one-character [c]. *)
Fixpoint contains_char (c : ascii) (s : string) : bool :=
  match s with
  | EmptyString => false
  | String a t => Ascii.eqb a c || contains_char c t
  end.

(** [x in xs] on a collection of strings. *)
Definition str_in (x : string) (xs : list string) : bool :=
  existsb (String.eqb x) xs.

End Py.

(** ** A [dict] with insertion order *)

Module Dict.
Section Dict.
Variables (K V : Type).
Variable K_eq_dec : forall x y : K, {x = y} + {x <> y}.

Definition t : Type := list (K * V).

Fixpoint get (d : t) (k : K) : option V :=
  match d with
  | [] => None
  | (k', v) :: rest => if K_eq_dec k k' then Some v else get rest k
  end.

(** [d[k] = v]: an existing key keeps its position, a new key goes last. *)
Fixpoint set (d : t) (k : K) (v : V) : t :=
  match d with
  | [] => [(k, v)]
  | (k', v') :: rest =>
      if K_eq_dec k k' then (k', v) :: rest else (k', v') :: set rest k v
  end.

Definition keys (d : t) : list K := map fst d.
Definition values (d : t) : list V := map snd d.

End Dict.
End Dict.

(** ** Data model *)

Inductive SearchType : Type := KEYWORD | SEMANTIC | HYBRID.

Definition SearchType_eqb (a b : SearchType) : bool :=
  match a, b with
  | KEYWORD, KEYWORD | SEMANTIC, SEMANTIC | HYBRID, HYBRID => true
  | _, _ => false
  end.

(** Modelled from the spec: [IndexFilters] is declared in
    [danswer.search.models], which is not among the sources; the core passes
    it through to the index unread. *)
Definition IndexFilters : Type := list string.

(** Modelled from the spec: [SearchQuery] is declared in
    [danswer.search.models], which is not among the sources; the fields are
    those [search_runner.py] reads. *)
Record SearchQuery : Type := mkQuery {
  query : string;
  search_type : SearchType;
  filters : IndexFilters;
  favor_recent : bool;
  num_hits : Z;
  num_rerank : Z;
  max_llm_filter_chunks : Z;
  skip_rerank : bool;
  skip_llm_chunk_filter : bool
}.

(** [query.copy(update={"query": rephrase}, deep=True)] *)
Definition copy_with_query (q : SearchQuery) (rephrase : string) : SearchQuery :=
  mkQuery rephrase (search_type q) (filters q) (favor_recent q) (num_hits q)
          (num_rerank q) (max_llm_filter_chunks q) (skip_rerank q)
          (skip_llm_chunk_filter q).

(** Modelled from the spec: [InferenceChunk] is declared in
    [danswer.indexing.models], which is not among the sources; the fields
    are those the ranking code reads or writes. *)
Record InferenceChunk : Type := mkChunk {
  document_id : string;
  chunk_id : Z;
  content : string;
  boost : Z;
  recency_bias : Q;
  score : option Q
}.

(** Chunk objects live in a heap; lists hold references. *)
Definition ref : Type := nat.
Definition heap : Type := ref -> InferenceChunk.

Definition with_score (c : InferenceChunk) (s : option Q) : InferenceChunk :=
  mkChunk (document_id c) (chunk_id c) (content c) (boost c) (recency_bias c) s.

(** [chunk.score = s] *)
Definition set_score (h : heap) (r : ref) (s : option Q) : heap :=
  fun r' => if Nat.eqb r' r then with_score (h r) s else h r'.

(** [for ind, chunk in enumerate(chunks): chunk.score = scores[ind]], for
    two lists of one length (both are projections of one zipped list). *)
Fixpoint assign_scores (h : heap) (l : list (ref * Q)) : heap :=
  match l with
  | [] => h
  | (r, s) :: t => assign_scores (set_score h r (Some s)) t
  end.

(** [for chunk in chunks: chunk.score = None] *)
Definition clear_scores (h : heap) (chunks : list ref) : heap :=
  fold_left (fun h' r => set_score h' r None) chunks h.

Definition chunk_key : Type := (string * Z)%type.

Definition chunk_key_eq_dec (x y : chunk_key) : {x = y} + {x <> y}.
Proof. decide equality; [apply Z.eq_dec | apply string_dec]. Defined.

Definition key_of (h : heap) (r : ref) : chunk_key :=
  (document_id (h r), chunk_id (h r)).

(** [x.score or 0] *)
Definition score_or_0 (h : heap) (r : ref) : Q := Py.or_zero (score (h r)).

(** ** ResultMerger: [combine_retrieval_results] *)

Definition merge_step (h : heap) (unique_chunks : Dict.t chunk_key ref)
    (chunk : ref) : Dict.t chunk_key ref :=
  let key := key_of h chunk in
  match Dict.get chunk_key_eq_dec unique_chunks key with
  | None => Dict.set chunk_key_eq_dec unique_chunks key chunk
  | Some stored =>
      if Py.lt (score_or_0 h stored) (score_or_0 h chunk)
      then Dict.set chunk_key_eq_dec unique_chunks key chunk
      else unique_chunks
  end.

Definition combine_retrieval_results (h : heap) (chunk_sets : list (list ref))
    : list ref :=
  let all_chunks := concat chunk_sets in
  let unique_chunks := fold_left (merge_step h) all_chunks [] in
  Py.sorted_desc (score_or_0 h) (Dict.values unique_chunks).

(** ** numpy arrays of one dimension *)

Module Np.

Definition map2 {A B C : Type} (f : A -> B -> C) (xs : list A) (ys : list B)
    : list C :=
  map (fun p => f (fst p) (snd p)) (combine xs ys).

(** An element-wise operation with broadcasting: equal shapes, or one
    operand of length one; any other pair of shapes is a [ValueError]. *)
Definition broadcast2 (f : Q -> Q -> Q) (xs ys : list Q) : result (list Q) :=
  if Nat.eqb (length xs) (length ys) then Ok (map2 f xs ys)
  else match xs, ys with
       | [x], _ => Ok (map (f x) ys)
       | _, [y] => Ok (map (fun x => f x y) xs)
       | _, _ => Raise ValueError
       end.

Definition add : list Q -> list Q -> result (list Q) := broadcast2 Qplus.
Definition multiply : list Q -> list Q -> result (list Q) := broadcast2 Qmult.

(** [sum(rows) / len(rows)]: Python's [sum] starts from the integer [0];
    with no rows this is [0 / 0] on integers. *)
Definition mean_rows (rows : list (list Q)) : result (list Q) :=
  match rows with
  | [] => Raise ZeroDivisionError
  | r0 :: rest =>
      total <- fold_left (fun acc r => a <- acc ;; add a r) rest
                         (Ok (map (Qplus 0) r0)) ;;
      Ok (map (fun x => x / inject_Z (Z.of_nat (length rows)))%Q total)
  end.

(** [numpy.min(rows)] over a list of arrays: the rows must stack into a
    matrix with at least one entry. *)
Definition amin (rows : list (list Q)) : result Q :=
  match rows with
  | [] => Raise ValueError
  | r0 :: rest =>
      if forallb (fun r => Nat.eqb (length r) (length r0)) rest
      then Py.min_of (concat rows)
      else Raise ValueError
  end.

(** [xs / d] for a scalar [d]: numpy does not raise on a zero divisor, it
    fills the array with inf/nan, which [Q] does not have. *)
Definition divide_scalar (xs : list Q) (d : Q) : result (list Q) :=
  if Qeq_bool d 0 then Raise NotFinite else Ok (map (fun x => x / d)%Q xs).

End Np.

(** ** Injected collaborators *)

(** The models and helpers [search_runner.py] imports from modules that are
    not among the sources.  [set_iteration l] is the order in which Python
    iterates [set(l)]; [unique_id_of_key] is [InferenceChunk.unique_id],
    which the spec derives from the key. *)
Record Collaborators : Type := mkCollaborators {
  translate_boost_count_to_multiplier : Z -> Q;
  predict : string -> list string -> result (list (list Q));
  rephrase_query : string -> string -> list string;
  set_iteration : list string -> list string;
  llm_batch_eval_chunks : string -> list string -> result (list bool);
  unique_id_of_key : string -> Z -> string
}.

(** [DocumentIndex] of [document_index/interfaces.py]: the three retrieval
    capabilities.  The chunks an index returns are objects of the heap.  An
    index call that raises ends [retrieve_chunks] before anything is
    yielded; the record holds the calls that return. *)
Record DocumentIndex : Type := mkIndex {
  keyword_retrieval : string -> IndexFilters -> bool -> Z -> list ref;
  semantic_retrieval : string -> IndexFilters -> bool -> Z -> list ref;
  hybrid_retrieval : string -> IndexFilters -> bool -> Z -> Q -> list ref
}.

Definition scored : Type := (Q * Q * ref * nat)%type.
Definition scored_key (x : scored) : Q := let '(s, _, _, _) := x in s.
Definition scored_raw (x : scored) : Q := let '(_, r, _, _) := x in r.
Definition scored_chunk (x : scored) : ref := let '(_, _, c, _) := x in c.
Definition scored_index (x : scored) : nat := let '(_, _, _, i) := x in i.

(** [zip(a, b, c, d)]: as long as the shortest argument. *)
Definition zip4 (a b : list Q) (c : list ref) (d : list nat) : list scored :=
  map (fun p => let '(x, (y, (z, w))) := p in (x, y, z, w))
      (combine a (combine b (combine c d))).

Definition zip3 (a b c : list Q) : list (Q * Q * Q) :=
  map (fun p => let '(x, (y, z)) := p in (x, y, z)) (combine a (combine b c)).

Section Pipeline.

Variable E : Collaborators.

Definition unique_id (h : heap) (r : ref) : string :=
  unique_id_of_key E (document_id (h r)) (chunk_id (h r)).

(** ** RetrievalDispatcher: [doc_index_retrieval] *)

Definition doc_index_retrieval (q : SearchQuery) (document_index : DocumentIndex)
    (hybrid_alpha : Q) : list ref :=
  match search_type q with
  | KEYWORD =>
      keyword_retrieval document_index (query q) (filters q) (favor_recent q)
                        (num_hits q)
  | SEMANTIC =>
      semantic_retrieval document_index (query q) (filters q) (favor_recent q)
                         (num_hits q)
  | HYBRID =>
      hybrid_retrieval document_index (query q) (filters q) (favor_recent q)
                       (num_hits q) hybrid_alpha
  end.

(** ** Reranker: [semantic_reranking] *)

Definition semantic_reranking (h : heap) (query_text : string)
    (chunks : list ref) (model_min model_max : Z)
    : result (heap * (list ref * list nat)) :=
  let passages := map (fun c => content (h c)) chunks in
  sim_scores <- predict E query_text passages ;;
  raw_sim_scores <- Np.mean_rows sim_scores ;;
  cross_models_min <- Np.amin sim_scores ;;
  shifted_sim_scores <-
    Np.mean_rows (map (map (fun x => x - cross_models_min)%Q) sim_scores) ;;
  let boosts :=
    map (fun c => translate_boost_count_to_multiplier E (boost (h c))) chunks in
  let recency_multiplier := map (fun c => recency_bias (h c)) chunks in
  shifted_boosted <- Np.multiply shifted_sim_scores boosts ;;
  boosted_sim_scores <- Np.multiply shifted_boosted recency_multiplier ;;
  normalized_b_s_scores <-
    Np.divide_scalar
      (map (fun x => x + cross_models_min - inject_Z model_min)%Q
           boosted_sim_scores)
      (inject_Z (model_max - model_min)) ;;
  let orig_indices := seq 0 (length normalized_b_s_scores) in
  let scored_results :=
    Py.sorted_desc scored_key
      (zip4 normalized_b_s_scores raw_sim_scores chunks orig_indices) in
  match scored_results with
  | [] => Raise ValueError   (* unpacking [zip( *[] )] into four names *)
  | _ =>
      let ranked_sim_scores := map scored_key scored_results in
      let ranked_chunks := map scored_chunk scored_results in
      let ranked_indices := map scored_index scored_results in
      Ok (assign_scores h (combine ranked_chunks ranked_sim_scores),
          (ranked_chunks, ranked_indices))
  end.

(** ** ScoreMath: [apply_boost] *)

(** Lines 309-310: the normalization window. *)
Definition norm_bounds (h : heap) (chunks : list ref) (norm_cutoff : Z)
    (norm_min norm_max : Q) : result (Q * Q) :=
  let scores := map (fun c => Py.or_zero (score (h c))) chunks in
  top_min <- Py.min_of (Py.slice_to norm_cutoff scores) ;;
  let norm_min := Py.min2 norm_min top_min in
  top_max <- Py.max_of (Py.slice_to norm_cutoff scores) ;;
  let norm_max := Py.max2 norm_max top_max in
  Ok (norm_min, norm_max).

Definition boosted_score (norm_min norm_range : Q) (x : Q * Q * Q) : result Q :=
  let '(score, boost, recency) := x in
  q <- Py.truediv ((score - norm_min) * boost * recency)%Q norm_range ;;
  Ok (Py.max2 0 q).

Definition apply_boost (h : heap) (chunks : list ref) (norm_cutoff : Z)
    (norm_min norm_max : Q) : result (heap * list ref) :=
  let scores := map (fun c => Py.or_zero (score (h c))) chunks in
  let boosts :=
    map (fun c => translate_boost_count_to_multiplier E (boost (h c))) chunks in
  let recency_multiplier := map (fun c => recency_bias (h c)) chunks in
  bounds <- norm_bounds h chunks norm_cutoff norm_min norm_max ;;
  let '(norm_min, norm_max) := bounds in
  let norm_range := (norm_max - norm_min)%Q in
  boosted_scores <-
    mapM (boosted_score norm_min norm_range)
         (zip3 scores boosts recency_multiplier) ;;
  let rescored_chunks :=
    Py.sorted_desc fst (combine boosted_scores chunks) in
  match rescored_chunks with
  | [] => Raise ValueError   (* unpacking [zip( *[] )] into two names *)
  | _ =>
      let final_chunks := map snd rescored_chunks in
      let final_scores := map fst rescored_chunks in
      Ok (assign_scores h (combine final_chunks final_scores), final_chunks)
  end.

(** ** TextNormalizer: [_simplify_text]

    Text is modelled as ASCII strings: [string.punctuation] is the ASCII
    punctuation table, [isspace] and [lower] are their ASCII parts. *)

Definition in_range (lo hi : nat) (c : ascii) : bool :=
  Nat.leb lo (nat_of_ascii c) && Nat.leb (nat_of_ascii c) hi.

Definition is_punctuation (c : ascii) : bool :=
  in_range 33 47 c || in_range 58 64 c || in_range 91 96 c || in_range 123 126 c.

Definition isspace (c : ascii) : bool :=
  in_range 9 13 c || in_range 28 32 c.

Definition lower_char (c : ascii) : ascii :=
  if in_range 65 90 c then ascii_of_nat (nat_of_ascii c + 32) else c.

Fixpoint str_filter (keep : ascii -> bool) (s : string) : string :=
  match s with
  | EmptyString => EmptyString
  | String c t => if keep c then String c (str_filter keep t) else str_filter keep t
  end.

Fixpoint str_map (f : ascii -> ascii) (s : string) : string :=
  match s with
  | EmptyString => EmptyString
  | String c t => String (f c) (str_map f t)
  end.

Definition _simplify_text (text : string) : string :=
  str_map lower_char
    (str_filter (fun char => negb (is_punctuation char) && negb (isspace char))
                text).

(** ** QueryExpander: the expansion branch of [retrieve_chunks] *)

(** One round of the loop over [set(query_rephrases)]: the state is
    [(simplified_queries, run_queries)]; [run_queries] is kept as the list
    of query texts of the copies handed to the retrieval. *)
Definition expansion_step (st : list string * list string) (rephrase : string)
    : list string * list string :=
  let '(simplified_queries, run_queries) := st in
  let simplified_rephrase := _simplify_text rephrase in
  if Py.str_in simplified_rephrase simplified_queries then st
  else (simplified_rephrase :: simplified_queries, run_queries ++ [rephrase]).

(** The query texts that are retrieved for an original query. *)
Definition expanded_queries (original : string) (languages : string)
    : list string :=
  let query_rephrases := rephrase_query E original languages ++ [original] in
  snd (fold_left expansion_step (set_iteration E query_rephrases) ([], [])).

(** [not multilingual_query_expansion] *)
Definition expansion_disabled (multilingual_query_expansion : option string)
    : bool :=
  match multilingual_query_expansion with
  | None | Some EmptyString => true
  | Some _ => false
  end.

Definition newline : ascii := ascii_of_nat 10.
Definition carriage_return : ascii := ascii_of_nat 13.

(** Modelled from the spec: [run_functions_tuples_in_parallel] of
    [danswer.utils.threadpool_concurrency] is not among the sources; it runs
    the calls and returns their results in the order of the calls (section
    5, fan-out retrieval). *)
Definition run_functions_tuples_in_parallel {A B : Type} (run : A -> B)
    (calls : list A) : list B :=
  map run calls.

Definition retrieve_chunks (h : heap) (q : SearchQuery)
    (document_index : DocumentIndex) (hybrid_alpha : Q)
    (multilingual_query_expansion : option string) : list ref :=
  let top_chunks :=
    if expansion_disabled multilingual_query_expansion
       || Py.contains_char newline (query q)
       || Py.contains_char carriage_return (query q)
    then doc_index_retrieval q document_index hybrid_alpha
    else
      let languages :=
        match multilingual_query_expansion with
        | Some l => l
        | None => EmptyString
        end in
      let run_queries :=
        map (copy_with_query q) (expanded_queries (query q) languages) in
      let parallel_search_results :=
        run_functions_tuples_in_parallel
          (fun q_copy => doc_index_retrieval q_copy document_index hybrid_alpha)
          run_queries in
      combine_retrieval_results h parallel_search_results in
  match top_chunks with
  | [] => []
  | _ => top_chunks
  end.

Definition should_rerank (q : SearchQuery) : bool :=
  negb (SearchType_eqb (search_type q) KEYWORD) && negb (skip_rerank q).

Definition should_apply_llm_based_relevance_filter (q : SearchQuery) : bool :=
  negb (skip_llm_chunk_filter q).

(** The defaults [CROSS_ENCODER_RANGE_MIN] and [CROSS_ENCODER_RANGE_MAX] of
    [semantic_reranking] are constants of [danswer.configs.model_configs],
    which is not among the sources; they are taken as parameters. *)
Definition rerank_chunks (CROSS_ENCODER_RANGE_MIN CROSS_ENCODER_RANGE_MAX : Z)
    (h : heap) (q : SearchQuery) (chunks_to_rerank : list ref)
    : result (heap * list ref) :=
  ranked <-
    semantic_reranking h (query q) (Py.slice_to (num_rerank q) chunks_to_rerank)
                       CROSS_ENCODER_RANGE_MIN CROSS_ENCODER_RANGE_MAX ;;
  let '(h1, (ranked_chunks, _)) := ranked in
  let lower_chunks := Py.slice_from (num_rerank q) chunks_to_rerank in
  let h2 := clear_scores h1 lower_chunks in
  Ok (h2, ranked_chunks ++ lower_chunks).

(** ** RelevanceFilter: [filter_chunks] *)

(** The comprehension over [enumerate(chunks_to_filter)], from index [ind]. *)
Fixpoint select_relevant (h : heap) (llm_chunk_selection : list bool)
    (ind : nat) (chunks : list ref) : result (list string) :=
  match chunks with
  | [] => Ok []
  | chunk :: rest =>
      match nth_error llm_chunk_selection ind with
      | None => Raise IndexError
      | Some keep =>
          ids <- select_relevant h llm_chunk_selection (S ind) rest ;;
          Ok (if keep then unique_id h chunk :: ids else ids)
      end
  end.

Definition filter_chunks (h : heap) (q : SearchQuery)
    (chunks_to_filter : list ref) : result (list string) :=
  let chunks_to_filter := Py.slice_to (max_llm_filter_chunks q) chunks_to_filter in
  llm_chunk_selection <-
    llm_batch_eval_chunks E (query q)
                          (map (fun c => content (h c)) chunks_to_filter) ;;
  select_relevant h llm_chunk_selection 0 chunks_to_filter.

(** ** Pipeline: [full_chunk_search_generator] *)

Inductive FunctionCall : Type :=
| Call_rerank_chunks (q : SearchQuery) (chunks : list ref)
| Call_filter_chunks (q : SearchQuery) (chunks : list ref).

Inductive task_value : Type :=
| Chunks_value (chunks : list ref)
| Ids_value (ids : list string).

Definition execute (rmin rmax : Z) (h : heap) (call : FunctionCall)
    : result (heap * task_value) :=
  match call with
  | Call_rerank_chunks q chunks =>
      r <- rerank_chunks rmin rmax h q chunks ;;
      Ok (fst r, Chunks_value (snd r))
  | Call_filter_chunks q chunks =>
      ids <- filter_chunks h q chunks ;;
      Ok (h, Ids_value ids)
  end.

(** Modelled from the spec: [run_functions_in_parallel] of
    [danswer.utils.threadpool_concurrency] is not among the sources.  It runs
    every call and returns the results keyed by result id; a call that
    raises leaves [None] under its id (section 5: rerank and filter failures
    degrade, they do not end the search).  The result id of a call is its
    position in the task list; the calls are run one after the other, which
    is sound here because the reranker writes only [score] and the filter
    reads only [content] and the key. *)
Fixpoint run_functions_in_parallel (rmin rmax : Z) (h : heap) (next_id : nat)
    (calls : list FunctionCall) : heap * Dict.t nat (option task_value) :=
  match calls with
  | [] => (h, [])
  | call :: rest =>
      match execute rmin rmax h call with
      | Ok (h1, v) =>
          let '(h2, results) := run_functions_in_parallel rmin rmax h1 (S next_id) rest in
          (h2, (next_id, Some v) :: results)
      | Raise _ =>
          let '(h2, results) := run_functions_in_parallel rmin rmax h (S next_id) rest in
          (h2, (next_id, None) :: results)
      end
  end.

(** [post_processing_results.get(str(task_id)) if task_id else None] *)
Definition task_result (results : Dict.t nat (option task_value))
    (task_id : option nat) : option task_value :=
  match task_id with
  | None => None
  | Some id =>
      match Dict.get Nat.eq_dec results id with
      | Some v => v
      | None => None
      end
  end.

(** What the generator hands to its consumer, in order. *)
Inductive yielded : Type :=
| Yield_chunks (chunks : list ref)
| Yield_mask (mask : list bool).

Definition full_chunk_search_generator (rmin rmax : Z) (h : heap)
    (q : SearchQuery) (document_index : DocumentIndex) (hybrid_alpha : Q)
    (multilingual_query_expansion : option string) : heap * list yielded :=
  let retrieved_chunks :=
    retrieve_chunks h q document_index hybrid_alpha multilingual_query_expansion in
  match retrieved_chunks with
  | [] => (h, [Yield_chunks []; Yield_mask []])
  | _ =>
      (* the rerank task, or the early yield of the retrieval order *)
      let '(tasks1, rerank_task_id, yields1, chunks_yielded) :=
        if should_rerank q
        then ([Call_rerank_chunks q retrieved_chunks], Some 0%nat, [], false)
        else ([], None, [Yield_chunks retrieved_chunks], true) in
      (* the filter task *)
      let '(tasks2, llm_filter_task_id) :=
        if should_apply_llm_based_relevance_filter q
        then (tasks1 ++
                [Call_filter_chunks q
                   (Py.slice_to (max_llm_filter_chunks q) retrieved_chunks)],
              Some (length tasks1))
        else (tasks1, None) in
      let '(h', post_processing_results) :=
        match tasks2 with
        | [] => (h, [])
        | _ => run_functions_in_parallel rmin rmax h 0 tasks2
        end in
      let reranked_chunks :=
        match task_result post_processing_results rerank_task_id with
        | Some (Chunks_value l) => Some l
        | _ => None
        end in
      let yields2 :=
        match reranked_chunks with
        | Some ((_ :: _) as l) =>
            if chunks_yielded then yields1 else yields1 ++ [Yield_chunks l]
        | _ => yields1
        end in
      let llm_chunk_selection :=
        match task_result post_processing_results llm_filter_task_id with
        | Some (Ids_value ids) => Some ids
        | _ => None
        end in
      (* [reranked_chunks or retrieved_chunks] *)
      let shown :=
        match reranked_chunks with
        | Some ((_ :: _) as l) => l
        | _ => retrieved_chunks
        end in
      let mask :=
        match llm_chunk_selection with
        | Some ids => map (fun chunk => Py.str_in (unique_id h' chunk) ids) shown
        | None => map (fun _ => true) shown
        end in
      (h', yields2 ++ [Yield_mask mask])
  end.

(** [full_chunk_search]: two [next] calls on the generator. *)
Definition full_chunk_search (rmin rmax : Z) (h : heap) (q : SearchQuery)
    (document_index : DocumentIndex) (hybrid_alpha : Q)
    (multilingual_query_expansion : option string)
    : result (yielded * yielded) :=
  match snd (full_chunk_search_generator rmin rmax h q document_index
               hybrid_alpha multilingual_query_expansion) with
  | top_chunks :: llm_chunk_selection :: _ => Ok (top_chunks, llm_chunk_selection)
  | _ => Raise StopIteration
  end.

End Pipeline.

(** ** ScoreMath: [apply_boost_legacy] *)

Section Legacy.
Variable E : Collaborators.

(** Lines 255-266: the boost applied on the scores brought to [0, 1], then
    taken back to their range; on a zero range the plain product. *)
Definition legacy_unnormed_boosted_scores (scores boosts : list Q)
    (score_min score_range : Q) : result (list Q) :=
  if negb (Qeq_bool score_range 0)
  then
    boosted_scores <-
      mapM (fun p : Q * Q =>
              q <- Py.truediv (fst p - score_min)%Q score_range ;;
              Ok (q * snd p)%Q)
           (combine scores boosts) ;;
    Ok (map (fun score => score * score_range + score_min)%Q boosted_scores)
  else Ok (map (fun p : Q * Q => (fst p * snd p)%Q) (combine scores boosts)).

(** Lines 274-279: the scores brought to the display range, or left as
    they are on a zero range. *)
Definition legacy_re_normed_scores (unnormed_boosted_scores : list Q)
    (norm_min norm_range : Q) : result (list Q) :=
  if negb (Qeq_bool norm_range 0)
  then mapM (fun score => Py.truediv (score - norm_min)%Q norm_range)
            unnormed_boosted_scores
  else Ok unnormed_boosted_scores.

Definition apply_boost_legacy (h : heap) (chunks : list ref)
    (norm_min norm_max : Q) : result (heap * list ref) :=
  let scores := map (fun c => Py.or_zero (score (h c))) chunks in
  let boosts :=
    map (fun c => translate_boost_count_to_multiplier E (boost (h c))) chunks in
  score_min <- Py.min_of scores ;;
  score_max <- Py.max_of scores ;;
  let score_range := (score_max - score_min)%Q in
  unnormed_boosted_scores <-
    legacy_unnormed_boosted_scores scores boosts score_min score_range ;;
  top_min <- Py.min_of scores ;;
  let norm_min := Py.min2 norm_min top_min in
  top_max <- Py.max_of scores ;;
  let norm_max := Py.max2 norm_max top_max in
  let norm_range := (norm_max - norm_min)%Q in
  re_normed_scores <-
    legacy_re_normed_scores unnormed_boosted_scores norm_min norm_range ;;
  let rescored_chunks :=
    Py.sorted_desc fst (combine re_normed_scores chunks) in
  match rescored_chunks with
  | [] => Raise ValueError   (* unpacking [zip( *[] )] into two names *)
  | _ =>
      let final_chunks := map snd rescored_chunks in
      let final_scores := map fst rescored_chunks in
      Ok (assign_scores h (combine final_chunks final_scores), final_chunks)
  end.

End Legacy.

(** ** Display fields of a chunk, [SearchDoc] and [chunks_to_search_docs] *)

(** Modelled from the spec: [datetime] values are carried around, never
    inspected. *)
Definition datetime : Type := Z.

(** Modelled from the spec: the fields of [InferenceChunk]
    ([danswer.indexing.models], not among the sources) that the projection
    to [SearchDoc] and the link logging read.  They are further fields of
    the chunk objects: [d r] holds those of the object the heap keeps at
    [r].  [source_links] is a dict from offsets to links, or [None]. *)
Record ChunkDisplay : Type := mkDisplay {
  semantic_identifier : string;
  source_links : option (Dict.t Z string);
  blurb : string;
  source_type : string;
  hidden : bool;
  match_highlights : list string;
  updated_at : option datetime
}.

Definition display : Type := ref -> ChunkDisplay.

(** [SearchDoc] of [server/chat/models.py]. *)
Module Doc.
Record t : Type := mk {
  document_id : string;
  semantic_identifier : string;
  link : option string;
  blurb : string;
  source_type : string;
  boost : Z;
  hidden : bool;
  score : option Q;
  match_highlights : list string;
  updated_at : option datetime
}.
End Doc.

(** Truth value of a string. *)
Definition str_truthy (s : string) : bool :=
  match s with
  | EmptyString => false
  | String _ _ => true
  end.

(** [chunk.source_links.get(0) if chunk.source_links else None] *)
Definition first_link_or_none (links : option (Dict.t Z string)) : option string :=
  match links with
  | None => None
  | Some [] => None
  | Some (entry :: rest) => Dict.get Z.eq_dec (entry :: rest) 0%Z
  end.

Definition to_search_doc (h : heap) (d : display) (chunk : ref) : Doc.t :=
  Doc.mk (document_id (h chunk)) (semantic_identifier (d chunk))
         (first_link_or_none (source_links (d chunk))) (blurb (d chunk))
         (source_type (d chunk)) (boost (h chunk)) (hidden (d chunk))
         (score (h chunk)) (match_highlights (d chunk)) (updated_at (d chunk)).

Definition chunks_to_search_docs (h : heap) (d : display)
    (chunks : option (list ref)) : list Doc.t :=
  match chunks with
  | None => []
  | Some [] => []
  | Some (c :: rest) =>
      map (to_search_doc h d)
          (filter (fun chunk => str_truthy (semantic_identifier (d chunk)))
                  (c :: rest))
  end.

(** ** [_log_top_chunk_links] *)

(** [c.source_links[0] if c.source_links is not None else "No Link"];
    [None] stands for the [KeyError] of a dict without the key 0. *)
Definition top_link (links : option (Dict.t Z string)) : option string :=
  match links with
  | None => Some "No Link"%string
  | Some dict => Dict.get Z.eq_dec dict 0%Z
  end.

Fixpoint top_links (d : display) (chunks : list ref) : option (list string) :=
  match chunks with
  | [] => Some []
  | c :: rest =>
      match top_link (source_links (d c)) with
      | None => None
      | Some link =>
          match top_links d rest with
          | None => None
          | Some links => Some (link :: links)
          end
      end
  end.

(** The message handed to [logger.info], or [None] for the [KeyError]. *)
Definition _log_top_chunk_links (d : display) (search_flow : string)
    (chunks : list ref) : option string :=
  match top_links d chunks with
  | None => None
  | Some links =>
      Some ("Top links from " ++ search_flow ++ " search: "
            ++ String.concat ", " links)%string
  end.

(** ** TextNormalizer: stop words, punctuation and lemmas *)

(** [string.punctuation], the ASCII punctuation in code order. *)
Definition punctuation : string :=
  string_of_list_ascii
    (map ascii_of_nat (seq 33 15 ++ seq 58 7 ++ seq 91 6 ++ seq 123 4)).

(** [word in text] on strings: [word] occurs in [text]. *)
Fixpoint str_contains (word text : string) : bool :=
  String.prefix word text
  || match text with
     | EmptyString => false
     | String _ rest => str_contains word rest
     end.

(** The [nltk] resources, which are not part of the repository:
    [word_tokenize], [stopwords.words("english")] and
    [WordNetLemmatizer().lemmatize]. *)
Record Nltk : Type := mkNltk {
  word_tokenize : string -> list string;
  stopwords_english : list string;
  lemmatize : string -> string
}.

Section TextNormalizer.
Variable N : Nltk.

Definition lemmatize_text (text : string) : list string :=
  map (lemmatize N) (word_tokenize N text).

(** [word.casefold() not in stop_words and word not in string.punctuation];
    [casefold] is modelled on ASCII text, where it is [lower]. *)
Definition keep_word (word : string) : bool :=
  negb (Py.str_in (str_map lower_char word) (stopwords_english N))
  && negb (str_contains word punctuation).

Definition remove_stop_words_and_punctuation (text : string) : list string :=
  let word_tokens := word_tokenize N text in
  let text_trimmed := filter keep_word word_tokens in
  match text_trimmed with
  | [] => word_tokens
  | _ => text_trimmed
  end.

Definition query_processing (query_text : string) : string :=
  let query1 := String.concat " " (remove_stop_words_and_punctuation query_text) in
  String.concat " " (lemmatize_text query1).

End TextNormalizer.

(** ** Vocabulary of the properties *)

(** [desc key a b]: [a] may stand before [b] in descending [key] order. *)
Definition desc {A : Type} (key : A -> Q) (a b : A) : Prop :=
  (key b <= key a)%Q.

(** [precedes a b l]: some occurrence of [a] is before some occurrence of
    [b] in [l]. *)
Definition precedes {A : Type} (a b : A) (l : list A) : Prop :=
  exists l1 l2 l3, l = l1 ++ a :: l2 ++ b :: l3.

(** [first_seen_before ka kb ks]: the key [ka] makes its first appearance in
    [ks] at a point where [kb] has not appeared yet. *)
Definition first_seen_before {K : Type} (ka kb : K) (ks : list K) : Prop :=
  exists l1 l2, ks = l1 ++ ka :: l2 /\ ~ In ka l1 /\ ~ In kb l1.

(** [best_of h all r]: [r] stands in [all] at the first position that holds
    the highest score (absent as 0) among the chunks of its key. *)
Definition best_of (h : heap) (all : list ref) (r : ref) : Prop :=
  exists p1 p2,
    all = p1 ++ r :: p2 /\
    (forall x, In x p1 -> key_of h x = key_of h r ->
               (score_or_0 h x < score_or_0 h r)%Q) /\
    (forall x, In x p2 -> key_of h x = key_of h r ->
               (score_or_0 h x <= score_or_0 h r)%Q).

(** What the loop of [combine_retrieval_results] keeps true: [d] is the
    dictionary after the chunks [pre] have been seen. *)
Record merge_inv (h : heap) (d : Dict.t chunk_key ref) (pre : list ref)
    : Prop := {
  inv_nodup : NoDup (Dict.keys d);
  inv_keys : forall k, In k (Dict.keys d) <-> In k (map (key_of h) pre);
  inv_best : forall k v, In (k, v) d -> key_of h v = k /\ best_of h pre v;
  inv_order : forall ka kb, precedes ka kb (Dict.keys d) ->
                            first_seen_before ka kb (map (key_of h) pre)
}.

(** [same_fields c c']: [c'] is [c] up to its score. *)
Definition same_fields (c c' : InferenceChunk) : Prop :=
  document_id c' = document_id c /\ chunk_id c' = chunk_id c /\
  content c' = content c /\ boost c' = boost c /\
  recency_bias c' = recency_bias c.

Definition Qsum (l : list Q) : Q := fold_right Qplus 0%Q l.

(** [column rows i]: the scores the models give to passage [i]. *)
Definition column (rows : list (list Q)) (i : nat) : list Q :=
  map (fun row => nth i row 0%Q) rows.

Definition mean (l : list Q) : Q :=
  (Qsum l / inject_Z (Z.of_nat (length l)))%Q.

(** [is_minimum m l]: [m] is an entry of [l] and no entry is smaller. *)
Definition is_minimum (m : Q) (l : list Q) : Prop :=
  In m l /\ forall y, In y l -> (m <= y)%Q.

(** The boost of a chunk, as the reranker and [apply_boost] compute it. *)
Definition boost_of (E : Collaborators) (h : heap) (c : ref) : Q :=
  translate_boost_count_to_multiplier E (boost (h c)).

(** The score the specification gives to passage [i]: the mean over the
    models of the shifted scores, boosted and weighted, shifted back and
    brought to the target range. *)
Definition rerank_score_spec (S : list (list Q)) (cross_min : Q) (i : nat)
    (boost_multiplier recency : Q) (model_min model_max : Z) : Q :=
  ((mean (map (fun x => x - cross_min) (column S i)) * boost_multiplier * recency
    + cross_min - inject_Z model_min)
   / (inject_Z model_max - inject_Z model_min))%Q.

(** Lines 200-203 of [semantic_reranking] on arrays of one shape, before
    the division. *)
Definition normalized_scores (E : Collaborators) (h : heap) (chunks : list ref)
    (shifted : list Q) (cross_min : Q) (model_min model_max : Z) : list Q :=
  map (fun x => x + cross_min - inject_Z model_min)%Q
      (Np.map2 Qmult (Np.map2 Qmult shifted (map (boost_of E h) chunks))
               (map (fun c => recency_bias (h c)) chunks)).

(** Lines 204-208: the sorted list of score rows. *)
Definition ranking (E : Collaborators) (h : heap) (chunks : list ref)
    (raw shifted : list Q) (cross_min : Q) (model_min model_max : Z)
    : list scored :=
  Py.sorted_desc scored_key
    (zip4 (map (fun x => x / inject_Z (model_max - model_min))%Q
               (normalized_scores E h chunks shifted cross_min model_min
                                  model_max))
          raw chunks (seq 0 (length chunks))).

(** What the loop over the rephrases keeps true: the canonical forms seen
    are those of the queries to run, no two of which share one. *)
Definition expansion_inv (seen : list string) (st : list string * list string)
    : Prop :=
  (forall s, In s (fst st) <-> In s (map _simplify_text (snd st))) /\
  NoDup (map _simplify_text (snd st)) /\
  (forall r, In r seen -> In (_simplify_text r) (map _simplify_text (snd st))) /\
  (forall r, In r (snd st) -> In r seen).

(** The characters [_simplify_text] keeps: neither punctuation nor white
    space. *)
Definition kept_char (c : ascii) : bool :=
  negb (is_punctuation c) && negb (isspace c).


(** ** Sample collaborators and data, for running the model *)

Module Sample.

(** A boost curve with [0 -> 1], non-decreasing and bounded. *)
Definition boost_curve (b : Z) : Q :=
  if (b <? 0)%Z then 1 # 2 else if (b =? 0)%Z then 1 else 2.

Definition passage_score (passage : string) : Q :=
  inject_Z (Z.of_nat (String.length passage)).

(** One cross-encoder that scores a passage by its length. *)
Definition one_model (query_text : string) (passages : list string)
    : result (list (list Q)) :=
  Ok [map passage_score passages].

(** A rephraser that answers with the lower-cased query. *)
Definition lower_rephraser (query_text languages : string) : list string :=
  [str_map lower_char query_text].

(** [set(l)] iterated in the order of first insertion. *)
Fixpoint insertion_order (l : list string) : list string :=
  match l with
  | [] => []
  | x :: t => x :: filter (fun y => negb (String.eqb x y)) (insertion_order t)
  end.

(** A judge that keeps the passages of even length. *)
Definition even_judge (query_text : string) (contents : list string)
    : result (list bool) :=
  Ok (map (fun c => Nat.even (String.length c)) contents).

(** The document id and the chunk id in decimal, joined by two underscores. *)
Definition key_text (doc : string) (chunk : Z) : string :=
  (doc ++ "__" ++ NilZero.string_of_int (Z.to_int chunk))%string.

Definition models : Collaborators :=
  mkCollaborators boost_curve one_model lower_rephraser insertion_order
                  even_judge key_text.

(** Three chunks of documents a, b and c, with scores 9/10, 6/10 and 3/10. *)
Definition chunks3 : heap := fun r =>
  match r with
  | 0%nat => mkChunk "a" 0 "alpha" 0 1 (Some (9 # 10))
  | 1%nat => mkChunk "b" 0 "beta two" 0 1 (Some (6 # 10))
  | _ => mkChunk "c" 0 "gamma ray" 0 1 (Some (3 # 10))
  end.

(** Chunk (a, 0) retrieved twice, with score 1 and then with score 5, next
    to a chunk of document b with score 5 and one of document c without a
    score. *)
Definition retrieved_twice : heap := fun r =>
  match r with
  | 0%nat => mkChunk "a" 0 "alpha" 0 1 (Some 1)
  | 1%nat => mkChunk "b" 0 "beta two" 0 1 (Some 5)
  | 2%nat => mkChunk "a" 0 "alpha" 0 1 (Some 5)
  | _ => mkChunk "c" 1 "gamma ray" 0 1 None
  end.

(** Two chunks of equal score 1/2, the second with a boost count of 3. *)
Definition boosted_pair : heap := fun r =>
  match r with
  | 0%nat => mkChunk "a" 0 "alpha" 0 1 (Some (1 # 2))
  | _ => mkChunk "b" 0 "beta two" 3 1 (Some (1 # 2))
  end.

(** One chunk whose score is 1/2. *)
Definition half : heap := fun _ => mkChunk "a" 0 "alpha" 0 1 (Some (1 # 2)).

(** An index that returns the same three chunks for every query. *)
Definition index3 : DocumentIndex :=
  mkIndex (fun _ _ _ _ => [0; 1; 2]%nat) (fun _ _ _ _ => [0; 1; 2]%nat)
          (fun _ _ _ _ _ => [0; 1; 2]%nat).

Definition semantic_query (rerank max_filter : Z) (no_rerank no_filter : bool)
    : SearchQuery :=
  mkQuery "what is alpha" SEMANTIC [] false 10 rerank max_filter no_rerank
          no_filter.

End Sample.

(** ** Sample text resources and display fields *)

Module SampleText.

(** The words of a text, split at spaces. *)
Fixpoint words_from (current text : string) : list string :=
  match text with
  | EmptyString => [current]
  | String c rest =>
      if Ascii.eqb c " "
      then current :: words_from EmptyString rest
      else words_from (current ++ String c EmptyString) rest
  end.

Definition split_at_spaces (text : string) : list string :=
  filter str_truthy (words_from EmptyString text).

(** A lemmatizer that knows one plural. *)
Definition singular (word : string) : string :=
  if String.eqb word "chunks" then "chunk"%string else word.

Definition english : Nltk :=
  mkNltk split_at_spaces ["what"; "is"; "the"; "a"; "of"]%string singular.

(** Four chunks to display: one with a title and a link at offset 0, one
    without a title, one whose links are an empty dict, one without links. *)
Definition titles : display := fun r =>
  match r with
  | 0%nat => mkDisplay "Title" (Some [(0%Z, "http://a"%string)]) "blurb" "web"
                       false [] None
  | 1%nat => mkDisplay EmptyString (Some [(0%Z, "http://b"%string)]) "blurb"
                       "web" false [] None
  | 2%nat => mkDisplay "Empty" (Some []) "blurb" "web" false [] None
  | _ => mkDisplay "Bare" None "blurb" "web" false [] None
  end.


End SampleText.

(** * Properties *)

(** ** Comparisons *)

Lemma lt_true_iff (x y : Q) : Py.lt x y = true <-> (x < y)%Q.
Proof.
  unfold Py.lt. rewrite negb_true_iff. split; intro H.
  - apply Qnot_le_lt. intro Hle. apply Qle_bool_iff in Hle. congruence.
  - destruct (Qle_bool y x) eqn:Hb; [|reflexivity].
    apply Qle_bool_iff in Hb. exfalso. apply (Qlt_not_le _ _ H Hb).
Qed.

Lemma lt_false_iff (x y : Q) : Py.lt x y = false <-> (y <= x)%Q.
Proof.
  unfold Py.lt. rewrite negb_false_iff. apply Qle_bool_iff.
Qed.

Lemma max2_zero_nonneg (q : Q) : (0 <= Py.max2 0 q)%Q.
Proof.
  unfold Py.max2. destruct (Py.lt 0 q) eqn:Hlt.
  - apply lt_true_iff in Hlt. apply Qlt_le_weak, Hlt.
  - apply Qle_refl.
Qed.

(** ** The stable descending sort *)

Section Sorting.
Context {A : Type}.
Variable key : A -> Q.

Lemma insert_desc_perm (x : A) (l : list A) :
  Permutation (Py.insert_desc key x l) (x :: l).
Proof.
  induction l as [|y t IH]; simpl.
  - apply Permutation_refl.
  - destruct (Py.lt (key x) (key y)).
    + eapply perm_trans; [apply perm_skip, IH | apply perm_swap].
    + apply Permutation_refl.
Qed.

Lemma sorted_desc_perm (l : list A) : Permutation (Py.sorted_desc key l) l.
Proof.
  induction l as [|x t IH]; simpl.
  - constructor.
  - eapply perm_trans; [apply insert_desc_perm | apply perm_skip, IH].
Qed.

Lemma sorted_desc_length (l : list A) :
  length (Py.sorted_desc key l) = length l.
Proof. apply Permutation_length, sorted_desc_perm. Qed.

Lemma sorted_desc_In (l : list A) (x : A) :
  In x (Py.sorted_desc key l) <-> In x l.
Proof.
  split; apply Permutation_in;
    [apply sorted_desc_perm | apply Permutation_sym, sorted_desc_perm].
Qed.

Lemma insert_desc_sorted (x : A) (l : list A) :
  StronglySorted (desc key) l -> StronglySorted (desc key) (Py.insert_desc key x l).
Proof.
  induction 1 as [|y t Hs IH Hall]; simpl.
  - constructor; constructor.
  - destruct (Py.lt (key x) (key y)) eqn:Hlt.
    + constructor; [exact IH|].
      apply lt_true_iff in Hlt.
      rewrite Forall_forall in *. intros z Hz.
      apply (Permutation_in _ (insert_desc_perm x t)) in Hz.
      destruct Hz as [<-|Hz]; [apply Qlt_le_weak, Hlt | apply Hall, Hz].
    + apply lt_false_iff in Hlt.
      constructor; [constructor; assumption|].
      constructor; [exact Hlt|].
      rewrite Forall_forall in *. intros z Hz.
      unfold desc in *. eapply Qle_trans; [apply Hall, Hz | exact Hlt].
Qed.

Lemma sorted_desc_sorted (l : list A) :
  StronglySorted (desc key) (Py.sorted_desc key l).
Proof.
  induction l as [|x t IH]; simpl.
  - constructor.
  - apply insert_desc_sorted, IH.
Qed.

(** A list already in descending order is left as it is. *)
Lemma sorted_desc_fixed (l : list A) :
  StronglySorted (desc key) l -> Py.sorted_desc key l = l.
Proof.
  induction 1 as [|x t Hs IH Hall]; simpl; [reflexivity|].
  rewrite IH. destruct t as [|y t']; [reflexivity|]. simpl.
  inversion Hall as [|? ? Hy _]; subst.
  apply lt_false_iff in Hy. rewrite Hy. reflexivity.
Qed.

Lemma precedes_cons (a b x : A) (l : list A) :
  precedes a b l -> precedes a b (x :: l).
Proof.
  intros (l1 & l2 & l3 & ->). exists (x :: l1), l2, l3. reflexivity.
Qed.

Lemma precedes_head (a b : A) (l : list A) : In b l -> precedes a b (a :: l).
Proof.
  intro Hin. apply in_split in Hin as (l2 & l3 & ->).
  exists [], l2, l3. reflexivity.
Qed.

Lemma precedes_cons_inv (a b x : A) (l : list A) :
  precedes a b (x :: l) -> (a = x /\ In b l) \/ precedes a b l.
Proof.
  intros (l1 & l2 & l3 & Heq). destruct l1 as [|y l1]; simpl in Heq.
  - injection Heq as -> ->. left. split; [reflexivity|].
    apply in_or_app. right. left. reflexivity.
  - injection Heq as -> ->. right. exists l1, l2, l3. reflexivity.
Qed.



Lemma insert_desc_stable (x a b : A) (l : list A) :
  precedes a b (Py.insert_desc key x l) -> (key a == key b)%Q ->
  precedes a b (x :: l).
Proof.
  induction l as [|y t IH]; simpl; intros Hp Heq.
  - exact Hp.
  - destruct (Py.lt (key x) (key y)) eqn:Hlt; [|exact Hp].
    apply lt_true_iff in Hlt.
    apply precedes_cons_inv in Hp as [[-> Hb]|Hp].
    + apply (Permutation_in _ (insert_desc_perm x t)) in Hb.
      destruct Hb as [<-|Hb].
      * exfalso. rewrite Heq in Hlt. apply (Qlt_irrefl _ Hlt).
      * apply precedes_cons, precedes_head, Hb.
    + specialize (IH Hp Heq).
      apply precedes_cons_inv in IH as [[-> Hb]|IH].
      * apply precedes_head. right. exact Hb.
      * apply precedes_cons, precedes_cons, IH.
Qed.

(** Stability: items with equal keys come out in the order they went in. *)
Lemma sorted_desc_stable (a b : A) (l : list A) :
  precedes a b (Py.sorted_desc key l) -> (key a == key b)%Q -> precedes a b l.
Proof.
  induction l as [|x t IH]; simpl; intros Hp Heq.
  - exact Hp.
  - apply insert_desc_stable in Hp; [|exact Heq].
    apply precedes_cons_inv in Hp as [[-> Hb]|Hp].
    + apply precedes_head. exact (proj1 (sorted_desc_In t b) Hb).
    + apply precedes_cons, IH; assumption.
Qed.

End Sorting.

Lemma precedes_map {A B : Type} (f : A -> B) (a b : A) (l : list A) :
  precedes a b l -> precedes (f a) (f b) (map f l).
Proof.
  intros (l1 & l2 & l3 & ->). exists (map f l1), (map f l2), (map f l3).
  rewrite map_app. simpl. rewrite map_app. reflexivity.
Qed.

Lemma precedes_snoc_inv {A : Type} (a b x : A) (l : list A) :
  precedes a b (l ++ [x]) -> precedes a b l \/ (In a l /\ b = x).
Proof.
  induction l as [|y t IH]; simpl; intro Hp.
  - destruct Hp as (l1 & l2 & l3 & Heq).
    destruct l1 as [|? [|? ?]]; simpl in Heq; try discriminate.
    injection Heq as _ Heq. destruct l2; discriminate.
  - apply precedes_cons_inv in Hp as [[-> Hb]|Hp].
    + apply in_app_or in Hb as [Hb|[<-|[]]].
      * left. apply precedes_head, Hb.
      * right. split; [left|]; reflexivity.
    + destruct (IH Hp) as [H|[H ->]].
      * left. apply precedes_cons, H.
      * right. split; [right; exact H | reflexivity].
Qed.

(** ** Dictionary facts *)

Section DictFacts.
Variables (K V : Type).
Variable K_eq_dec : forall x y : K, {x = y} + {x <> y}.

Local Abbreviation get := (Dict.get K_eq_dec).
Local Abbreviation set := (Dict.set K_eq_dec).

Lemma get_None (d : Dict.t K V) (k : K) :
  get d k = None <-> ~ In k (Dict.keys d).
Proof.
  induction d as [|[k' v'] rest IH]; simpl.
  - tauto.
  - destruct (K_eq_dec k k') as [->|Hne].
    + split; [discriminate | intro H; exfalso; apply H; left; reflexivity].
    + rewrite IH. split; intro H; [intros [Heq|Hin]; [congruence | tauto] | tauto].
Qed.

Lemma get_Some (d : Dict.t K V) (k : K) (v : V) :
  get d k = Some v -> In (k, v) d.
Proof.
  induction d as [|[k' v'] rest IH]; simpl; [discriminate|].
  destruct (K_eq_dec k k') as [->|Hne].
  - intros [= ->]. left. reflexivity.
  - intro H. right. apply IH, H.
Qed.

Lemma set_new (d : Dict.t K V) (k : K) (v : V) :
  get d k = None -> set d k v = d ++ [(k, v)].
Proof.
  induction d as [|[k' v'] rest IH]; simpl; [reflexivity|].
  destruct (K_eq_dec k k') as [->|Hne]; [discriminate|].
  intro H. rewrite IH by exact H. reflexivity.
Qed.

Lemma set_keys_present (d : Dict.t K V) (k : K) (v : V) :
  In k (Dict.keys d) -> Dict.keys (set d k v) = Dict.keys d.
Proof.
  induction d as [|[k' v'] rest IH]; simpl; [tauto|].
  destruct (K_eq_dec k k') as [->|Hne]; [reflexivity|].
  intros [Heq|Hin]; [congruence|]. simpl. f_equal. apply IH, Hin.
Qed.

Lemma set_In_inv (d : Dict.t K V) (k k' : K) (v v' : V) :
  NoDup (Dict.keys d) -> In (k', v') (set d k v) ->
  (k' = k /\ v' = v) \/ (k' <> k /\ In (k', v') d).
Proof.
  induction d as [|[k0 v0] rest IH]; simpl; intros Hnd Hin.
  - destruct Hin as [[= <- <-]|[]]. left. split; reflexivity.
  - inversion Hnd as [|? ? Hnotin Hnd']; subst.
    destruct (K_eq_dec k k0) as [->|Hne].
    + destruct Hin as [[= <- <-]|Hin]; [left; split; reflexivity|].
      right. split; [|right; exact Hin].
      intros ->. apply Hnotin. apply (in_map fst) in Hin. exact Hin.
    + destruct Hin as [[= <- <-]|Hin].
      * right. split; [congruence | left; reflexivity].
      * destruct (IH Hnd' Hin) as [H|[H1 H2]]; [left; exact H|].
        right. split; [exact H1 | right; exact H2].
Qed.

Lemma entries_functional (d : Dict.t K V) (k : K) (v1 v2 : V) :
  NoDup (Dict.keys d) -> In (k, v1) d -> In (k, v2) d -> v1 = v2.
Proof.
  induction d as [|[k0 v0] rest IH]; simpl; intros Hnd H1 H2; [tauto|].
  inversion Hnd as [|? ? Hnotin Hnd']; subst.
  destruct H1 as [[= -> ->]|H1]; destruct H2 as [[= <-]|H2].
  - reflexivity.
  - exfalso. apply Hnotin. apply (in_map fst) in H2. exact H2.
  - subst. exfalso. apply Hnotin. apply (in_map fst) in H1. exact H1.
  - apply IH; assumption.
Qed.

End DictFacts.

(** ** The merger *)

Lemma first_seen_before_app {K : Type} (ka kb : K) (ks more : list K) :
  first_seen_before ka kb ks -> first_seen_before ka kb (ks ++ more).
Proof.
  intros (l1 & l2 & -> & H1 & H2). exists l1, (l2 ++ more).
  rewrite <- app_assoc. simpl. auto.
Qed.

Lemma first_occurrence {K : Type} (K_eq_dec : forall x y : K, {x = y} + {x <> y})
    (k : K) (ks : list K) :
  In k ks -> exists l1 l2, ks = l1 ++ k :: l2 /\ ~ In k l1.
Proof.
  induction ks as [|x t IH]; simpl; [tauto|].
  intro Hin. destruct (K_eq_dec x k) as [->|Hne].
  - exists [], t. split; [reflexivity | tauto].
  - destruct Hin as [Heq|Hin]; [congruence|].
    destruct (IH Hin) as (l1 & l2 & -> & Hn).
    exists (x :: l1), l2. split; [reflexivity|].
    intros [Heq|Hin']; [congruence | tauto].
Qed.

Section Merge.
Variable h : heap.

Local Abbreviation key := (key_of h).
Local Abbreviation sc := (score_or_0 h).

Lemma merge_inv_nil : merge_inv h [] [].
Proof.
  constructor; simpl.
  - constructor.
  - tauto.
  - tauto.
  - intros ka kb (l1 & l2 & l3 & Heq). destruct l1; discriminate.
Qed.

Lemma best_of_snoc_other (pre : list ref) (v c : ref) :
  best_of h pre v -> key c <> key v -> best_of h (pre ++ [c]) v.
Proof.
  intros (p1 & p2 & -> & H1 & H2) Hne. exists p1, (p2 ++ [c]).
  split; [rewrite <- app_assoc; reflexivity|]. split; [exact H1|].
  intros x Hx Hk. apply in_app_or in Hx as [Hx|[<-|[]]]; [auto | congruence].
Qed.

Lemma best_of_snoc_keep (pre : list ref) (v c : ref) :
  best_of h pre v -> (sc c <= sc v)%Q -> best_of h (pre ++ [c]) v.
Proof.
  intros (p1 & p2 & -> & H1 & H2) Hle. exists p1, (p2 ++ [c]).
  split; [rewrite <- app_assoc; reflexivity|]. split; [exact H1|].
  intros x Hx Hk. apply in_app_or in Hx as [Hx|[<-|[]]]; auto.
Qed.

Lemma best_of_snoc_replace (pre : list ref) (v c : ref) :
  best_of h pre v -> key c = key v -> (sc v < sc c)%Q ->
  best_of h (pre ++ [c]) c.
Proof.
  intros (p1 & p2 & -> & H1 & H2) Hk Hlt. exists (p1 ++ v :: p2), [].
  split; [reflexivity|]. split; [|intros x []].
  intros x Hx Hkx. rewrite Hk in Hkx.
  apply in_app_or in Hx as [Hx|[<-|Hx]].
  - eapply Qlt_trans; [apply H1; assumption | exact Hlt].
  - exact Hlt.
  - eapply Qle_lt_trans; [apply H2; assumption | exact Hlt].
Qed.

Lemma best_of_snoc_new (pre : list ref) (c : ref) :
  ~ In (key c) (map key pre) -> best_of h (pre ++ [c]) c.
Proof.
  intro Hn. exists pre, []. split; [reflexivity|]. split; [|intros x []].
  intros x Hx Hk. exfalso. apply Hn. rewrite <- Hk. apply in_map, Hx.
Qed.

Lemma merge_step_inv (d : Dict.t chunk_key ref) (pre : list ref) (c : ref) :
  merge_inv h d pre -> merge_inv h (merge_step h d c) (pre ++ [c]).
Proof.
  intros [Hnd Hkeys Hbest Hord]. unfold merge_step.
  destruct (Dict.get chunk_key_eq_dec d (key c)) as [stored|] eqn:Hget.
  - (* the key is known *)
    assert (Hin : In (key c) (Dict.keys d)).
    { destruct (in_dec chunk_key_eq_dec (key c) (Dict.keys d)) as [H|H];
        [exact H|].
      apply (proj2 (@get_None _ _ chunk_key_eq_dec d (key c))) in H.
      congruence. }
    pose proof (@get_Some _ _ chunk_key_eq_dec d (key c) stored Hget) as Hstored.
    destruct (Hbest _ _ Hstored) as [Hks Hbs].
    assert (Hkeys' : forall k, In k (Dict.keys d) <-> In k (map key (pre ++ [c]))).
    { intro k. rewrite map_app, in_app_iff, <- Hkeys. simpl.
      split; [tauto|]. intros [H|[<-|[]]]; assumption. }
    assert (Hord' : forall ka kb, precedes ka kb (Dict.keys d) ->
                      first_seen_before ka kb (map key (pre ++ [c]))).
    { intros ka kb Hp. rewrite map_app. apply first_seen_before_app, Hord, Hp. }
    destruct (Py.lt (sc stored) (sc c)) eqn:Hlt.
    + apply lt_true_iff in Hlt.
      constructor.
      * rewrite set_keys_present by exact Hin. exact Hnd.
      * rewrite set_keys_present by exact Hin. exact Hkeys'.
      * intros k v Hv. apply set_In_inv in Hv; [|exact Hnd].
        destruct Hv as [[-> ->]|[Hne Hv]].
        -- split; [reflexivity|].
           apply best_of_snoc_replace with (v := stored); congruence.
        -- destruct (Hbest _ _ Hv) as [Hkv Hbv]. split; [exact Hkv|].
           apply best_of_snoc_other; congruence.
      * rewrite set_keys_present by exact Hin. exact Hord'.
    + apply lt_false_iff in Hlt.
      constructor; [exact Hnd | exact Hkeys' | | exact Hord'].
      intros k v Hv. destruct (Hbest _ _ Hv) as [Hkv Hbv].
      split; [exact Hkv|].
      destruct (chunk_key_eq_dec (key c) k) as [Heq|Hne].
      * assert (v = stored) as ->.
        { rewrite <- Heq in Hv.
          exact (@entries_functional _ _ d (key c) v stored Hnd Hv Hstored). }
        apply best_of_snoc_keep; assumption.
      * apply best_of_snoc_other; congruence.
  - (* a new key *)
    pose proof (proj1 (@get_None _ _ chunk_key_eq_dec d (key c)) Hget) as Hnew.
    rewrite set_new by exact Hget.
    assert (Hnew' : ~ In (key c) (map key pre)) by (rewrite <- Hkeys; exact Hnew).
    constructor.
    + unfold Dict.keys. rewrite map_app. simpl.
      apply NoDup_app; [exact Hnd | |].
      * constructor; [intros [] | constructor].
      * intros k Hk [<-|[]]. apply Hnew, Hk.
    + intro k. unfold Dict.keys. rewrite !map_app, !in_app_iff.
      fold (Dict.keys d). rewrite Hkeys. reflexivity.
    + intros k v Hv. apply in_app_or in Hv as [Hv|[[= <- <-]|[]]].
      * destruct (Hbest _ _ Hv) as [Hkv Hbv]. split; [exact Hkv|].
        apply best_of_snoc_other; [exact Hbv|].
        intro Heq. apply Hnew. rewrite Heq, Hkv.
        apply (in_map fst) in Hv. exact Hv.
      * split; [reflexivity | apply best_of_snoc_new, Hnew'].
    + intros ka kb Hp. unfold Dict.keys in Hp. rewrite map_app in Hp.
      simpl in Hp. apply precedes_snoc_inv in Hp as [Hp|[Ha ->]];
        rewrite map_app.
      * apply first_seen_before_app, Hord, Hp.
      * apply Hkeys in Ha.
        destruct (first_occurrence chunk_key_eq_dec _ _ Ha)
          as (l1 & l2 & Heq & Hn).
        exists l1, (l2 ++ map key [c]). rewrite Heq, <- app_assoc.
        split; [reflexivity|]. split; [exact Hn|].
        intro Hc. apply Hnew'. rewrite Heq. apply in_or_app. left. exact Hc.
Qed.

Lemma merge_loop_inv (l : list ref) (d : Dict.t chunk_key ref) (pre : list ref) :
  merge_inv h d pre -> merge_inv h (fold_left (merge_step h) l d) (pre ++ l).
Proof.
  revert d pre. induction l as [|c t IH]; intros d pre Hinv; simpl.
  - rewrite app_nil_r. exact Hinv.
  - replace (pre ++ c :: t) with ((pre ++ [c]) ++ t)
      by (rewrite <- app_assoc; reflexivity).
    apply IH, merge_step_inv, Hinv.
Qed.

Lemma merge_values_keys (d : Dict.t chunk_key ref) (pre : list ref) :
  merge_inv h d pre -> map key (Dict.values d) = Dict.keys d.
Proof.
  intros [_ _ Hbest _]. unfold Dict.values, Dict.keys. rewrite map_map.
  apply map_ext_in. intros [k v] Hin. simpl. apply (Hbest _ _ Hin).
Qed.

(** On a list without repeated keys the loop stores every chunk, in order. *)
Lemma merge_loop_distinct (l : list ref) (d : Dict.t chunk_key ref) :
  NoDup (map key l) ->
  (forall x, In x l -> ~ In (key x) (Dict.keys d)) ->
  fold_left (merge_step h) l d = d ++ map (fun r => (key r, r)) l.
Proof.
  revert d. induction l as [|c t IH]; intros d Hnd Hfresh; simpl.
  - rewrite app_nil_r. reflexivity.
  - inversion Hnd as [|? ? Hnotin Hnd']; subst.
    unfold merge_step at 2.
    assert (Hget : Dict.get chunk_key_eq_dec d (key c) = None).
    { apply (proj2 (@get_None _ _ chunk_key_eq_dec d (key c))), Hfresh.
      left. reflexivity. }
    rewrite Hget, set_new by exact Hget.
    rewrite IH; [rewrite <- app_assoc; reflexivity | exact Hnd' |].
    intros x Hx. unfold Dict.keys. rewrite map_app, in_app_iff. simpl.
    intros [Hin|[Heq|[]]].
    + apply (Hfresh x); [right; exact Hx | exact Hin].
    + apply Hnotin. rewrite Heq. apply in_map, Hx.
Qed.

End Merge.

Lemma combine_retrieval_results_inv (h : heap) (chunk_sets : list (list ref)) :
  merge_inv h (fold_left (merge_step h) (concat chunk_sets) [])
            (concat chunk_sets).
Proof.
  apply (merge_loop_inv (concat chunk_sets) (merge_inv_nil h)).
Qed.

Lemma combine_retrieval_results_sorted_distinct (h : heap) (xs : list ref) :
  NoDup (map (key_of h) xs) -> StronglySorted (desc (score_or_0 h)) xs ->
  combine_retrieval_results h [xs] = xs.
Proof.
  intros Hnd Hs. unfold combine_retrieval_results. simpl.
  rewrite app_nil_r, merge_loop_distinct; [|exact Hnd | intros x _ []].
  simpl. unfold Dict.values. rewrite map_map. simpl. rewrite map_id.
  apply sorted_desc_fixed, Hs.
Qed.

Lemma merged_keys_distinct (h : heap) (chunk_sets : list (list ref)) :
  NoDup (map (key_of h) (combine_retrieval_results h chunk_sets)).
Proof.
  pose proof (combine_retrieval_results_inv h chunk_sets) as Hinv.
  pose proof (merge_values_keys Hinv) as Hvk.
  apply (Permutation_NoDup
           (l := map (key_of h)
                   (Dict.values (fold_left (merge_step h) (concat chunk_sets) [])))).
  - apply Permutation_map, Permutation_sym, sorted_desc_perm.
  - rewrite Hvk. apply (inv_nodup Hinv).
Qed.

(** C4.  [combine_retrieval_results] keeps one chunk for every key
    [(document_id, chunk_id)] of its input; the chunk kept is the first
    occurrence, in flattening order, of the highest score of its key
    (absent as 0); the result is in descending score order, and two chunks
    of equal score stand in the order in which their keys were first seen
    in the flattened input. *)
Theorem combine_retrieval_results_merges (h : heap)
    (chunk_sets : list (list ref)) :
  let all_chunks := concat chunk_sets in
  let merged := combine_retrieval_results h chunk_sets in
  NoDup (map (key_of h) merged) /\
  (forall k, In k (map (key_of h) merged) <-> In k (map (key_of h) all_chunks)) /\
  (forall r, In r merged -> best_of h all_chunks r) /\
  StronglySorted (desc (score_or_0 h)) merged /\
  (forall a b, precedes a b merged ->
               (score_or_0 h a == score_or_0 h b)%Q ->
               first_seen_before (key_of h a) (key_of h b)
                                 (map (key_of h) all_chunks)).
Proof.
  intros all_chunks merged.
  pose proof (combine_retrieval_results_inv h chunk_sets) as Hinv.
  fold all_chunks in Hinv.
  set (d := fold_left (merge_step h) all_chunks []) in *.
  assert (Hperm : Permutation merged (Dict.values d))
    by apply sorted_desc_perm.
  pose proof (merge_values_keys Hinv) as Hvk.
  destruct Hinv as [Hnd Hkeys Hbest Hord].
  repeat split.
  - apply merged_keys_distinct.
  - intro Hin. apply Hkeys. rewrite <- Hvk.
    eapply Permutation_in; [apply Permutation_map, Hperm | exact Hin].
  - intro Hin. apply Hkeys in Hin. rewrite <- Hvk in Hin.
    eapply Permutation_in; [apply Permutation_map, Permutation_sym, Hperm|].
    exact Hin.
  - intros r Hr. apply (Permutation_in _ Hperm) in Hr.
    unfold Dict.values in Hr. apply in_map_iff in Hr as ([k v] & <- & Hin).
    apply (Hbest _ _ Hin).
  - apply sorted_desc_sorted.
  - intros a b Hp Heq. apply Hord. rewrite <- Hvk.
    apply precedes_map. apply (sorted_desc_stable _ _ Hp Heq).
Qed.

(** C8.  Merging the singleton list that holds a merger output gives that
    output back, chunk for chunk; so does merging [[xs]] for any [xs]
    without repeated keys that is already in descending score order. *)
Theorem combine_retrieval_results_idempotent (h : heap) :
  (forall xss : list (list ref),
     combine_retrieval_results h [combine_retrieval_results h xss]
     = combine_retrieval_results h xss) /\
  (forall xs : list ref,
     NoDup (map (key_of h) xs) -> StronglySorted (desc (score_or_0 h)) xs ->
     combine_retrieval_results h [xs] = xs).
Proof.
  split.
  - intro xss.
    apply combine_retrieval_results_sorted_distinct.
    + apply merged_keys_distinct.
    + apply sorted_desc_sorted.
  - apply combine_retrieval_results_sorted_distinct.
Qed.

(** ** Score assignment on the heap *)

Lemma set_score_same (h : heap) (r : ref) (s : option Q) :
  score (set_score h r s r) = s.
Proof. unfold set_score. rewrite Nat.eqb_refl. reflexivity. Qed.

Lemma set_score_other (h : heap) (r r' : ref) (s : option Q) :
  r' <> r -> set_score h r s r' = h r'.
Proof.
  intro Hne. unfold set_score.
  destruct (Nat.eqb_spec r' r); [contradiction | reflexivity].
Qed.

Lemma same_fields_refl (c : InferenceChunk) : same_fields c c.
Proof. repeat split. Qed.

Lemma same_fields_trans (a b c : InferenceChunk) :
  same_fields a b -> same_fields b c -> same_fields a c.
Proof.
  unfold same_fields. intros (?&?&?&?&?) (?&?&?&?&?).
  repeat split; congruence.
Qed.

Lemma set_score_fields (h : heap) (r : ref) (s : option Q) (x : ref) :
  same_fields (h x) (set_score h r s x).
Proof.
  unfold set_score. destruct (Nat.eqb_spec x r) as [->|_].
  - repeat split.
  - apply same_fields_refl.
Qed.

Lemma assign_scores_fields (l : list (ref * Q)) (h : heap) (x : ref) :
  same_fields (h x) (assign_scores h l x).
Proof.
  revert h. induction l as [|[r s] t IH]; intro h; simpl.
  - apply same_fields_refl.
  - eapply same_fields_trans; [apply set_score_fields | apply IH].
Qed.

Lemma clear_scores_fields (l : list ref) (h : heap) (x : ref) :
  same_fields (h x) (clear_scores h l x).
Proof.
  unfold clear_scores. revert h. induction l as [|r t IH]; intro h; simpl.
  - apply same_fields_refl.
  - eapply same_fields_trans; [apply set_score_fields | apply IH].
Qed.

Lemma assign_scores_untouched (l : list (ref * Q)) (h : heap) (x : ref) :
  ~ In x (map fst l) -> assign_scores h l x = h x.
Proof.
  revert h. induction l as [|[r s] t IH]; intros h Hn; simpl in *.
  - reflexivity.
  - rewrite IH by tauto. apply set_score_other. intro Heq. apply Hn. left.
    symmetry. exact Heq.
Qed.

(** Every chunk that is written ends with one of the written scores. *)
Lemma assign_scores_written (l : list (ref * Q)) (h : heap) (x : ref) :
  In x (map fst l) ->
  exists s, In s (map snd l) /\ score (assign_scores h l x) = Some s.
Proof.
  revert h. induction l as [|[r s] t IH]; intros h Hin; simpl in *.
  - contradiction.
  - destruct (in_dec Nat.eq_dec x (map fst t)) as [Ht|Ht].
    + destruct (IH (set_score h r (Some s)) Ht) as (s' & Hs' & Heq).
      exists s'. split; [right; exact Hs' | exact Heq].
    + destruct Hin as [->|Hin]; [|contradiction].
      exists s. split; [left; reflexivity|].
      rewrite assign_scores_untouched by exact Ht. apply set_score_same.
Qed.

(** When no chunk is written twice, each keeps the score paired with it. *)
Lemma assign_scores_distinct (l : list (ref * Q)) (h : heap) (x : ref) (s : Q) :
  NoDup (map fst l) -> In (x, s) l -> score (assign_scores h l x) = Some s.
Proof.
  revert h. induction l as [|[r s0] t IH]; intros h Hnd Hin; simpl in *.
  - contradiction.
  - inversion Hnd as [|? ? Hnotin Hnd']; subst.
    destruct Hin as [[= -> ->]|Hin].
    + rewrite assign_scores_untouched by exact Hnotin. apply set_score_same.
    + apply IH; assumption.
Qed.

Lemma clear_scores_keeps_none (l : list ref) (h : heap) (x : ref) :
  score (h x) = None -> score (clear_scores h l x) = None.
Proof.
  unfold clear_scores. revert h.
  induction l as [|r t IH]; intros h Hx; simpl; [exact Hx|].
  apply IH. destruct (Nat.eq_dec x r) as [->|Hne].
  - apply set_score_same.
  - rewrite set_score_other by exact Hne. exact Hx.
Qed.

Lemma clear_scores_cleared (l : list ref) (h : heap) (x : ref) :
  In x l -> score (clear_scores h l x) = None.
Proof.
  revert h. induction l as [|r t IH]; intros h Hin; [contradiction|].
  destruct Hin as [->|Hin].
  - apply (clear_scores_keeps_none t), set_score_same.
  - apply (IH (set_score h r None)), Hin.
Qed.

(** ** ScoreMath: [apply_boost] *)

Lemma map_fst_combine {A B : Type} (a : list A) (b : list B) :
  length a = length b -> map fst (combine a b) = a.
Proof.
  revert b. induction a as [|x a IH]; intros [|y b] H; simpl in *;
    try discriminate; [reflexivity|].
  f_equal. apply IH. lia.
Qed.

Lemma map_snd_combine {A B : Type} (a : list A) (b : list B) :
  length a = length b -> map snd (combine a b) = b.
Proof.
  revert b. induction a as [|x a IH]; intros [|y b] H; simpl in *;
    try discriminate; [reflexivity|].
  f_equal. apply IH. lia.
Qed.

Lemma zip3_length (a b c : list Q) :
  length a = length b -> length b = length c -> length (zip3 a b c) = length a.
Proof.
  intros Hab Hbc. unfold zip3.
  rewrite length_map, !length_combine. lia.
Qed.

Lemma mapM_length {A B : Type} (f : A -> result B) (l : list A) (bs : list B) :
  mapM f l = Ok bs -> length bs = length l.
Proof.
  revert bs. induction l as [|a t IH]; simpl; intros bs H.
  - injection H as <-. reflexivity.
  - destruct (f a); simpl in H; [|discriminate].
    destruct (mapM f t); simpl in H; [|discriminate].
    injection H as <-. simpl. f_equal. apply IH. reflexivity.
Qed.

Lemma mapM_Forall {A B : Type} (f : A -> result B) (P : B -> Prop)
    (l : list A) (bs : list B) :
  (forall a b, f a = Ok b -> P b) -> mapM f l = Ok bs -> Forall P bs.
Proof.
  intro Hf. revert bs. induction l as [|a t IH]; simpl; intros bs H.
  - injection H as <-. constructor.
  - destruct (f a) eqn:Ha; simpl in H; [|discriminate].
    destruct (mapM f t); simpl in H; [|discriminate].
    injection H as <-. constructor; [eapply Hf, Ha | apply IH; reflexivity].
Qed.

Lemma mapM_total {A B : Type} (f : A -> result B) (l : list A) :
  (forall a, exists b, f a = Ok b) -> exists bs, mapM f l = Ok bs.
Proof.
  intro Hf. induction l as [|a t [bs IH]]; simpl.
  - exists []. reflexivity.
  - destruct (Hf a) as [b ->]. rewrite IH. simpl. exists (b :: bs). reflexivity.
Qed.

Lemma truediv_zero (x y : Q) : (y == 0)%Q -> Py.truediv x y = Raise ZeroDivisionError.
Proof.
  intro H. unfold Py.truediv. rewrite (Qeq_eq_bool _ _ H). reflexivity.
Qed.

Lemma truediv_nonzero (x y : Q) : ~ (y == 0)%Q -> Py.truediv x y = Ok (x / y)%Q.
Proof.
  intro H. unfold Py.truediv. destruct (Qeq_bool y 0) eqn:Hb; [|reflexivity].
  apply Qeq_bool_eq in Hb. contradiction.
Qed.

Lemma boosted_score_nonneg (norm_min norm_range : Q) (x : Q * Q * Q) (b : Q) :
  boosted_score norm_min norm_range x = Ok b -> (0 <= b)%Q.
Proof.
  destruct x as [[s bo] re]. unfold boosted_score.
  destruct (Py.truediv _ _); simpl; [|discriminate].
  intros [= <-]. apply max2_zero_nonneg.
Qed.

Lemma slice_to_nil {A : Type} (k : Z) : Py.slice_to k (@nil A) = [].
Proof. unfold Py.slice_to. apply firstn_nil. Qed.

Lemma slice_to_zero {A : Type} (xs : list A) : Py.slice_to 0 xs = [].
Proof. reflexivity. Qed.

Lemma slice_app {A : Type} (k : Z) (xs : list A) :
  Py.slice_to k xs ++ Py.slice_from k xs = xs.
Proof. apply firstn_skipn. Qed.

Section ApplyBoost.
Variable E : Collaborators.

Lemma norm_bounds_nonempty (h : heap) (chunks : list ref) (norm_cutoff : Z)
    (norm_min norm_max : Q) (b : Q * Q) :
  norm_bounds h chunks norm_cutoff norm_min norm_max = Ok b ->
  Py.slice_to norm_cutoff chunks <> [].
Proof.
  unfold norm_bounds, Py.slice_to, Py.slice_bound. rewrite length_map.
  rewrite firstn_map.
  destruct (firstn _ chunks); simpl; [discriminate | intros _; discriminate].
Qed.

(** C1 (the code departs from the claim).  When the normalization bounds
    of [apply_boost] coincide, the function does not fall back to
    [score * boost * recency]: the quotient of the first chunk is taken with
    a zero divisor and the call ends in [ZeroDivisionError]. *)
Theorem apply_boost_zero_range_raises (h : heap) (chunks : list ref) (norm_cutoff : Z)
    (norm_min norm_max nmin nmax : Q) :
  norm_bounds h chunks norm_cutoff norm_min norm_max = Ok (nmin, nmax) ->
  (nmax == nmin)%Q ->
  apply_boost E h chunks norm_cutoff norm_min norm_max = Raise ZeroDivisionError.
Proof.
  intros Hb Heq. unfold apply_boost. rewrite Hb. simpl.
  pose proof (norm_bounds_nonempty _ _ _ _ _ Hb) as Hne.
  destruct chunks as [|c t]; [rewrite slice_to_nil in Hne; contradiction|].
  simpl. rewrite truediv_zero; [reflexivity|]. rewrite Heq. ring.
Qed.

Lemma apply_boost_regular (h : heap) (chunks : list ref) (norm_cutoff : Z)
    (norm_min norm_max nmin nmax : Q) :
  norm_bounds h chunks norm_cutoff norm_min norm_max = Ok (nmin, nmax) ->
  ~ (nmax == nmin)%Q ->
  exists h' final_chunks,
    apply_boost E h chunks norm_cutoff norm_min norm_max = Ok (h', final_chunks) /\
    Permutation final_chunks chunks /\
    forall r, In r final_chunks ->
              exists s, score (h' r) = Some s /\ (0 <= s)%Q.
Proof.
  intros Hb Hneq. unfold apply_boost. rewrite Hb. simpl.
  pose proof (norm_bounds_nonempty _ _ _ _ _ Hb) as Hne.
  set (triples := zip3 _ _ _).
  assert (Hlen : length triples = length chunks).
  { unfold triples. rewrite zip3_length; rewrite !length_map; reflexivity. }
  destruct (mapM_total (boosted_score nmin (nmax - nmin)) triples) as [bs Hbs].
  { intros [[s bo] re]. unfold boosted_score.
    rewrite truediv_nonzero; [simpl; eexists; reflexivity|].
    intro H0. apply Hneq. lra. }
  rewrite Hbs. simpl.
  pose proof (mapM_length _ _ Hbs) as Hlbs.
  pose proof (mapM_Forall _ (fun b => 0 <= b)%Q _
                (boosted_score_nonneg nmin (nmax - nmin)) Hbs) as Hpos.
  set (rescored := Py.sorted_desc fst (combine bs chunks)).
  assert (Hperm : Permutation rescored (combine bs chunks))
    by apply sorted_desc_perm.
  assert (Hpc : Permutation (map snd rescored) chunks).
  { eapply perm_trans; [apply Permutation_map, Hperm|].
    rewrite map_snd_combine by lia. apply Permutation_refl. }
  destruct rescored as [|p rest] eqn:Hres.
  { apply Permutation_nil in Hpc. subst chunks.
    rewrite slice_to_nil in Hne. contradiction. }
  rewrite <- Hres in *. eexists _, _. split; [reflexivity|].
  split; [exact Hpc|].
  intros r Hr.
  destruct (assign_scores_written
              (combine (map snd rescored) (map fst rescored)) h r)
    as (s & Hs & Hscore).
  { rewrite map_fst_combine by (rewrite !length_map; reflexivity). exact Hr. }
  exists s. split; [exact Hscore|].
  rewrite map_snd_combine in Hs by (rewrite !length_map; reflexivity).
  apply (Permutation_in _ (Permutation_map fst Hperm)) in Hs.
  rewrite map_fst_combine in Hs by lia.
  rewrite Forall_forall in Hpos. apply Hpos, Hs.
Qed.

(** C6.  On a non-empty chunk list whose normalization range is not
    degenerate, [apply_boost] returns, and every chunk of the returned list
    has a score that is present and at least 0. *)
Theorem apply_boost_scores_nonnegative (h : heap) (chunks : list ref)
    (norm_cutoff : Z) (norm_min norm_max nmin nmax : Q) :
  chunks <> [] ->
  norm_bounds h chunks norm_cutoff norm_min norm_max = Ok (nmin, nmax) ->
  ~ (nmax == nmin)%Q ->
  exists h' final_chunks,
    apply_boost E h chunks norm_cutoff norm_min norm_max = Ok (h', final_chunks) /\
    forall r, In r final_chunks ->
              exists s, score (h' r) = Some s /\ (0 <= s)%Q.
Proof.
  intros _ Hb Hneq.
  destruct (apply_boost_regular h chunks norm_cutoff norm_min norm_max Hb Hneq)
    as (h' & final_chunks & Hrun & _ & Hscores).
  exists h', final_chunks. split; assumption.
Qed.

Lemma apply_boost_needs_bounds (h : heap) (chunks : list ref) (norm_cutoff : Z)
    (norm_min norm_max : Q) (r : heap * list ref) :
  apply_boost E h chunks norm_cutoff norm_min norm_max = Ok r ->
  exists b, norm_bounds h chunks norm_cutoff norm_min norm_max = Ok b.
Proof.
  unfold apply_boost.
  destruct (norm_bounds h chunks norm_cutoff norm_min norm_max) as [b|e];
    simpl; [intros _; exists b; reflexivity | discriminate].
Qed.

(** C10.  [apply_boost] is partial at the empty boundary: on the empty chunk
    list, and on any chunk list when [norm_cutoff] is 0, taking the minimum
    of the empty top slice raises; a call that returns had a non-empty
    chunk list and, for a cutoff that is a count, a cutoff of at least 1. *)
Theorem apply_boost_partial_on_empty_slice :
  (forall h norm_cutoff norm_min norm_max,
     apply_boost E h [] norm_cutoff norm_min norm_max = Raise ValueError) /\
  (forall h chunks norm_min norm_max,
     apply_boost E h chunks 0 norm_min norm_max = Raise ValueError) /\
  (forall h chunks norm_cutoff norm_min norm_max r,
     apply_boost E h chunks norm_cutoff norm_min norm_max = Ok r ->
     (0 <= norm_cutoff)%Z ->
     chunks <> [] /\ (1 <= norm_cutoff)%Z).
Proof.
  split; [|split].
  - intros. unfold apply_boost, norm_bounds. simpl.
    rewrite slice_to_nil. reflexivity.
  - intros. unfold apply_boost, norm_bounds. rewrite slice_to_zero. reflexivity.
  - intros h chunks norm_cutoff norm_min norm_max r Hrun Hk.
    destruct (apply_boost_needs_bounds _ _ _ _ _ Hrun) as [b Hb].
    apply norm_bounds_nonempty in Hb. split.
    + intros ->. rewrite slice_to_nil in Hb. contradiction.
    + destruct (Z.eq_dec norm_cutoff 0) as [->|Hne]; [|lia].
      rewrite slice_to_zero in Hb. contradiction.
Qed.

End ApplyBoost.

Lemma apply_boost_zero_range_raises_witness :
  norm_bounds Sample.half [0%nat] 1 (1 # 2) (1 # 2) = Ok (1 # 2, 1 # 2) /\
  (1 # 2 == 1 # 2)%Q /\
  apply_boost Sample.models Sample.half [0%nat] 1 (1 # 2) (1 # 2)
  = Raise ZeroDivisionError.
Proof.
  split; [reflexivity|]. split; [reflexivity|].
  apply (@apply_boost_zero_range_raises Sample.models Sample.half [0%nat] 1
           (1 # 2) (1 # 2) (1 # 2) (1 # 2)); reflexivity.
Defined.

Lemma apply_boost_scores_nonnegative_witness :
  [0; 1; 2]%nat <> [] /\
  norm_bounds Sample.chunks3 [0; 1; 2]%nat 2 0 1 = Ok (0, 1) /\
  ~ (1 == 0)%Q /\
  exists h' final_chunks,
    apply_boost Sample.models Sample.chunks3 [0; 1; 2]%nat 2 0 1
    = Ok (h', final_chunks) /\
    forall r, In r final_chunks ->
              exists s, score (h' r) = Some s /\ (0 <= s)%Q.
Proof.
  split; [discriminate|]. split; [reflexivity|]. split; [discriminate|].
  apply (@apply_boost_scores_nonnegative Sample.models Sample.chunks3
           [0; 1; 2]%nat 2 0 1 0 1); [discriminate | reflexivity | discriminate].
Defined.

Lemma apply_boost_partial_on_empty_slice_witness :
  apply_boost Sample.models Sample.chunks3 [] 2 0 1 = Raise ValueError /\
  apply_boost Sample.models Sample.chunks3 [0; 1; 2]%nat 0 0 1 = Raise ValueError /\
  ([0; 1; 2]%nat <> [] /\ (1 <= 2)%Z).
Proof.
  destruct (apply_boost_partial_on_empty_slice Sample.models) as (H1 & H2 & H3).
  split; [apply H1|]. split; [apply H2|].
  destruct (apply_boost Sample.models Sample.chunks3 [0; 1; 2]%nat 2 0 1)
    as [r|e] eqn:Hrun.
  - apply (H3 _ _ _ _ _ r Hrun). discriminate.
  - split; [discriminate | discriminate].
Defined.

(** ** numpy facts *)

Lemma map2_length {A B C : Type} (f : A -> B -> C) (a : list A) (b : list B) :
  length a = length b -> length (Np.map2 f a b) = length a.
Proof.
  intro H. unfold Np.map2. rewrite length_map, length_combine. lia.
Qed.

Lemma map2_nth {A B C : Type} (f : A -> B -> C) (a : list A) (b : list B)
    (i : nat) (da : A) (db : B) (dc : C) :
  length a = length b -> (i < length a)%nat ->
  nth i (Np.map2 f a b) dc = f (nth i a da) (nth i b db).
Proof.
  revert b i. induction a as [|x a IH]; intros [|y b] i Hl Hi; simpl in *;
    try lia.
  destruct i as [|i]; [reflexivity|]. apply IH; lia.
Qed.

Lemma broadcast2_same_shape (f : Q -> Q -> Q) (a b : list Q) :
  length a = length b -> Np.broadcast2 f a b = Ok (Np.map2 f a b).
Proof.
  intro H. unfold Np.broadcast2. rewrite H, Nat.eqb_refl. reflexivity.
Qed.

Lemma min2_fold_spec (t : list Q) (x : Q) :
  In (fold_left Py.min2 t x) (x :: t) /\
  forall y, In y (x :: t) -> (fold_left Py.min2 t x <= y)%Q.
Proof.
  revert x. induction t as [|z t IH]; intro x; simpl.
  - split; [left; reflexivity|]. intros y [<-|[]]. apply Qle_refl.
  - destruct (IH (Py.min2 x z)) as [Hin Hle]. split.
    + destruct Hin as [Heq|Hin]; [|right; right; exact Hin].
      rewrite <- Heq. unfold Py.min2. destruct (Py.lt z x); auto.
    + assert (Hm : (Py.min2 x z <= x)%Q /\ (Py.min2 x z <= z)%Q).
      { unfold Py.min2. destruct (Py.lt z x) eqn:Hlt.
        - apply lt_true_iff in Hlt. split; [apply Qlt_le_weak, Hlt | apply Qle_refl].
        - apply lt_false_iff in Hlt. split; [apply Qle_refl | exact Hlt]. }
      intros y [<-|[<-|Hy]].
      * eapply Qle_trans; [apply Hle; left; reflexivity | apply Hm].
      * eapply Qle_trans; [apply Hle; left; reflexivity | apply Hm].
      * apply Hle. right. exact Hy.
Qed.

Lemma min_of_spec (l : list Q) (m : Q) : Py.min_of l = Ok m -> is_minimum m l.
Proof.
  destruct l as [|x t]; simpl; [discriminate|].
  intros [= <-]. apply min2_fold_spec.
Qed.

Lemma amin_spec (rows : list (list Q)) (m : Q) :
  Np.amin rows = Ok m -> is_minimum m (concat rows).
Proof.
  unfold Np.amin. destruct rows as [|r0 rest]; [discriminate|].
  destruct (forallb _ rest); [apply min_of_spec | discriminate].
Qed.

Lemma amin_total (rows : list (list Q)) (n : nat) :
  rows <> [] -> (0 < n)%nat -> Forall (fun row => length row = n) rows ->
  exists m, Np.amin rows = Ok m.
Proof.
  intros Hne Hn Hall. destruct rows as [|r0 rest]; [contradiction|].
  inversion Hall as [|? ? H0 Hrest]; subst. unfold Np.amin.
  replace (forallb _ rest) with true.
  - destruct r0 as [|x r0]; [simpl in Hn; lia|]. simpl. eexists. reflexivity.
  - symmetry. apply forallb_forall. intros r Hr.
    rewrite Forall_forall in Hrest. rewrite (Hrest r Hr). apply Nat.eqb_refl.
Qed.

(** The running sum of [sum(rows)], started from an accumulator. *)
Lemma sum_rows_spec (rest : list (list Q)) (acc : list Q) (n : nat) :
  length acc = n -> Forall (fun row => length row = n) rest ->
  exists total,
    fold_left (fun acc r => a <- acc ;; Np.add a r) rest (Ok acc) = Ok total /\
    length total = n /\
    forall i, (i < n)%nat ->
              (nth i total 0 == nth i acc 0 + Qsum (column rest i))%Q.
Proof.
  revert acc. induction rest as [|r rest IH]; intros acc Hacc Hall; simpl.
  - exists acc. repeat split; [exact Hacc|]. intros i _. ring.
  - inversion Hall as [|? ? Hr Hrest]; subst.
    unfold Np.add at 2. rewrite broadcast2_same_shape by congruence.
    destruct (IH (Np.map2 Qplus acc r)) as (total & Hrun & Hlen & Hnth);
      [rewrite map2_length; congruence | exact Hrest |].
    exists total. repeat split; [exact Hrun | exact Hlen |].
    intros i Hi. rewrite (Hnth i Hi).
    rewrite (map2_nth Qplus acc r 0%Q 0%Q 0%Q) by congruence. ring.
Qed.

Lemma mean_rows_spec (rows : list (list Q)) (n : nat) :
  rows <> [] -> Forall (fun row => length row = n) rows ->
  exists v, Np.mean_rows rows = Ok v /\ length v = n /\
            forall i, (i < n)%nat -> (nth i v 0 == mean (column rows i))%Q.
Proof.
  intros Hne Hall. destruct rows as [|r0 rest]; [contradiction|].
  inversion Hall as [|? ? H0 Hrest]; subst. unfold Np.mean_rows.
  destruct (@sum_rows_spec rest (map (Qplus 0) r0) (length r0))
    as (total & Hrun & Hlen & Hnth);
    [apply length_map | exact Hrest |].
  rewrite Hrun. unfold bind. eexists. split; [reflexivity|].
  split; [rewrite length_map; exact Hlen|].
  intros i Hi.
  set (d := inject_Z (Z.of_nat (length (r0 :: rest)))).
  rewrite (nth_indep _ 0%Q ((fun x => x / d)%Q 0%Q))
    by (rewrite length_map; lia).
  rewrite (map_nth (fun x => x / d)%Q total 0%Q i).
  unfold mean, column. rewrite length_map. fold d.
  rewrite (Hnth i Hi).
  rewrite (nth_indep _ 0%Q (Qplus 0 0%Q)) by (rewrite length_map; exact Hi).
  rewrite (map_nth (Qplus 0) r0 0%Q i). simpl.
  unfold Qdiv. apply Qmult_comp; [unfold column; ring | reflexivity].
Qed.

Lemma mean_rows_nonempty (rows : list (list Q)) (v : list Q) :
  Np.mean_rows rows = Ok v -> rows <> [].
Proof. destruct rows; [discriminate | discriminate]. Qed.

Lemma divide_scalar_spec (xs : list Q) (d : Q) (v : list Q) :
  Np.divide_scalar xs d = Ok v -> v = map (fun x => x / d)%Q xs /\ ~ (d == 0)%Q.
Proof.
  unfold Np.divide_scalar. destruct (Qeq_bool d 0) eqn:Hd; [discriminate|].
  intros [= <-]. split; [reflexivity | apply Qeq_bool_neq, Hd].
Qed.

Lemma divide_scalar_total (xs : list Q) (d : Q) :
  ~ (d == 0)%Q -> Np.divide_scalar xs d = Ok (map (fun x => x / d)%Q xs).
Proof.
  intro H. unfold Np.divide_scalar. destruct (Qeq_bool d 0) eqn:Hd;
    [apply Qeq_bool_eq in Hd; contradiction | reflexivity].
Qed.

(** ** Zipped score rows *)

Lemma zip4_length (a b : list Q) (c : list ref) (d : list nat) (n : nat) :
  length a = n -> length b = n -> length c = n -> length d = n ->
  length (zip4 a b c d) = n.
Proof.
  intros. unfold zip4. rewrite length_map, !length_combine. lia.
Qed.

Lemma zip4_nth_error (a b : list Q) (c : list ref) (d : list nat) (j : nat)
    (x : scored) :
  nth_error (zip4 a b c d) j = Some x ->
  nth_error a j = Some (scored_key x) /\ nth_error b j = Some (scored_raw x) /\
  nth_error c j = Some (scored_chunk x) /\ nth_error d j = Some (scored_index x).
Proof.
  revert b c d j.
  induction a as [|xa a IH]; intros [|xb b] [|xc c] [|xd d] j; simpl;
    try (destruct j; discriminate).
  destruct j as [|j]; simpl.
  - intros [= <-]. simpl. repeat split.
  - apply IH.
Qed.

Lemma zip4_chunks (a b : list Q) (c : list ref) (d : list nat) :
  length a = length c -> length b = length c -> length d = length c ->
  map scored_chunk (zip4 a b c d) = c.
Proof.
  revert b c d.
  induction a as [|xa a IH]; intros [|xb b] [|xc c] [|xd d] Ha Hb Hd;
    simpl in *; try discriminate; [reflexivity|].
  f_equal. apply IH; lia.
Qed.

Lemma zip4_indices (a b : list Q) (c : list ref) (d : list nat) :
  length a = length d -> length b = length d -> length c = length d ->
  map scored_index (zip4 a b c d) = d.
Proof.
  revert b c d.
  induction a as [|xa a IH]; intros [|xb b] [|xc c] [|xd d] Ha Hb Hd;
    simpl in *; try discriminate; [reflexivity|].
  f_equal. apply IH; lia.
Qed.

Lemma zip4_In (a b : list Q) (c : list ref) (n : nat) (x : scored) :
  In x (zip4 a b c (seq 0 n)) ->
  nth_error a (scored_index x) = Some (scored_key x) /\
  nth_error c (scored_index x) = Some (scored_chunk x) /\
  (scored_index x < n)%nat.
Proof.
  intro Hin. apply In_nth_error in Hin as [j Hj].
  apply zip4_nth_error in Hj as (Ha & _ & Hc & Hd).
  assert (Hjn : (j < n)%nat).
  { assert (H : (j < length (seq 0 n))%nat)
      by (apply nth_error_Some; congruence).
    rewrite length_seq in H. exact H. }
  rewrite nth_error_nth' with (d := 0%nat) in Hd by (rewrite length_seq; exact Hjn).
  rewrite seq_nth in Hd by exact Hjn. injection Hd as Hd. simpl in Hd.
  rewrite <- Hd. repeat split; assumption.
Qed.

Lemma StronglySorted_map {A B : Type} (R : A -> A -> Prop) (R' : B -> B -> Prop)
    (f : A -> B) (l : list A) :
  (forall x y, In x l -> In y l -> R x y -> R' (f x) (f y)) ->
  StronglySorted R l -> StronglySorted R' (map f l).
Proof.
  intros Hf Hs. induction Hs as [|x t Hs IH Hall]; simpl; constructor.
  - apply IH. intros u v Hu Hv. apply Hf; right; assumption.
  - rewrite Forall_forall in *. intros y Hy.
    apply in_map_iff in Hy as (z & <- & Hz).
    apply Hf; [left; reflexivity | right; exact Hz | apply Hall, Hz].
Qed.

Lemma or_zero_some (q : Q) : (Py.or_zero (Some q) == q)%Q.
Proof.
  simpl. destruct (Qeq_bool q 0) eqn:H; [|reflexivity].
  apply Qeq_bool_eq in H. symmetry. exact H.
Qed.

Lemma slice_bound_length {A B : Type} (k : Z) (xs : list A) (ys : list B) :
  length xs = length ys -> Py.slice_bound k xs = Py.slice_bound k ys.
Proof. intro H. unfold Py.slice_bound. rewrite H. reflexivity. Qed.

(** A list that replaces the head slice by one of the same length has the
    same slices. *)
Lemma slices_of_replaced_head {A : Type} (k : Z) (xs head : list A) :
  length head = length (Py.slice_to k xs) ->
  Py.slice_to k (head ++ Py.slice_from k xs) = head /\
  Py.slice_from k (head ++ Py.slice_from k xs) = Py.slice_from k xs /\
  length (head ++ Py.slice_from k xs) = length xs.
Proof.
  intro Hlen.
  assert (Hall : length (head ++ Py.slice_from k xs) = length xs).
  { rewrite length_app, Hlen, <- length_app, slice_app. reflexivity. }
  unfold Py.slice_to, Py.slice_from in *.
  rewrite (slice_bound_length k _ xs Hall).
  set (b := Py.slice_bound k xs) in *.
  rewrite length_firstn in Hlen.
  destruct (Nat.le_gt_cases b (length xs)) as [Hle|Hgt].
  - assert (Hb : length head = b) by lia.
    rewrite firstn_app, skipn_app, Hb, Nat.sub_diag. simpl.
    rewrite <- Hb, firstn_all, skipn_all, app_nil_r. simpl.
    split; [reflexivity|]. split; [reflexivity|].
    rewrite Hb. exact Hall.
  - assert (Hs : skipn b xs = []) by (apply skipn_all2; lia).
    rewrite Hs, app_nil_r.
    rewrite firstn_all2 by lia. rewrite skipn_all2 by lia.
    repeat split. rewrite Hs, app_nil_r in Hall. exact Hall.
Qed.

(** ** Reranker: [semantic_reranking] and [rerank_chunks] *)

Section Reranker.
Variable E : Collaborators.

Lemma inject_Z_diff_nonzero (a b : Z) : a <> b -> ~ (inject_Z (b - a) == 0)%Q.
Proof.
  intros Hne H. unfold Qeq in H. simpl in H. lia.
Qed.

Lemma semantic_reranking_run (h : heap) (query_text : string)
    (chunks : list ref) (model_min model_max : Z) (S : list (list Q)) :
  predict E query_text (map (fun c => content (h c)) chunks) = Ok S ->
  S <> [] -> chunks <> [] ->
  Forall (fun row => length row = length chunks) S ->
  model_min <> model_max ->
  exists cross_min raw shifted,
    Np.amin S = Ok cross_min /\
    length raw = length chunks /\ length shifted = length chunks /\
    (forall i, (i < length chunks)%nat ->
       (nth i shifted 0 ==
        mean (column (map (map (fun x => x - cross_min)) S) i))%Q) /\
    let sr := ranking E h chunks raw shifted cross_min model_min model_max in
    semantic_reranking E h query_text chunks model_min model_max
    = Ok (assign_scores h (combine (map scored_chunk sr) (map scored_key sr)),
          (map scored_chunk sr, map scored_index sr)).
Proof.
  intros Hpred HS Hchunks Hshape Hrange.
  assert (Hn : (0 < length chunks)%nat)
    by (destruct chunks; [contradiction | simpl; lia]).
  destruct (mean_rows_spec HS Hshape) as (raw & Hraw & Hlraw & _).
  destruct (amin_total HS Hn Hshape) as (cross_min & Hmin).
  destruct (@mean_rows_spec (map (map (fun x => x - cross_min)%Q) S)
              (length chunks))
    as (shifted & Hsh & Hlsh & Hnth).
  { destruct S; [contradiction | discriminate]. }
  { rewrite Forall_forall in *. intros row Hrow.
    apply in_map_iff in Hrow as (row' & <- & Hrow').
    rewrite length_map. apply Hshape, Hrow'. }
  exists cross_min, raw, shifted.
  split; [exact Hmin|]. split; [exact Hlraw|]. split; [exact Hlsh|].
  split; [exact Hnth|].
  intro sr. unfold semantic_reranking.
  rewrite Hpred. cbn [bind]. rewrite Hraw. cbn [bind]. rewrite Hmin. cbn [bind].
  rewrite Hsh. cbn [bind]. unfold Np.multiply.
  rewrite broadcast2_same_shape by (rewrite length_map; exact Hlsh).
  cbn [bind].
  rewrite broadcast2_same_shape
    by (rewrite map2_length, length_map; rewrite ?length_map; congruence).
  cbn [bind].
  rewrite divide_scalar_total by (apply inject_Z_diff_nonzero, Hrange).
  cbn [bind].
  assert (Hlen : length (map (fun x => x / inject_Z (model_max - model_min))%Q
                    (normalized_scores E h chunks shifted cross_min model_min
                                       model_max)) = length chunks).
  { unfold normalized_scores. rewrite !length_map, map2_length;
      rewrite map2_length; rewrite ?length_map; congruence. }
  unfold normalized_scores in Hlen. unfold boost_of in Hlen.
  rewrite Hlen. fold (boost_of E h) . 
  change (Py.sorted_desc scored_key _) with sr.
  destruct sr as [|x rest] eqn:Hsr; [|reflexivity].
  exfalso. assert (Hl : length sr = length chunks).
  { unfold sr, ranking. rewrite sorted_desc_length.
    apply zip4_length; [exact Hlen | exact Hlraw | reflexivity | apply length_seq]. }
  rewrite Hsr in Hl. simpl in Hl. lia.
Qed.

Lemma concat_empty_rows (rows : list (list Q)) :
  Forall (fun row => length row = 0%nat) rows -> concat rows = [].
Proof.
  induction 1 as [|row rows Hrow _ IH]; simpl; [reflexivity|].
  rewrite IH. destruct row; [reflexivity | discriminate].
Qed.

(** What a returning call tells about its inputs. *)
Lemma semantic_reranking_returns (h : heap) (query_text : string)
    (chunks : list ref) (model_min model_max : Z)
    (r : heap * (list ref * list nat)) :
  semantic_reranking E h query_text chunks model_min model_max = Ok r ->
  exists S,
    predict E query_text (map (fun c => content (h c)) chunks) = Ok S /\
    S <> [] /\ model_min <> model_max /\
    (Forall (fun row => length row = length chunks) S -> chunks <> []).
Proof.
  unfold semantic_reranking. intro Hrun.
  destruct (predict E query_text _) as [S|e]; [|discriminate].
  cbn [bind] in Hrun. exists S. split; [reflexivity|].
  destruct (Np.mean_rows S) as [raw|e] eqn:Hraw; [|discriminate].
  cbn [bind] in Hrun.
  destruct (Np.amin S) as [cross_min|e] eqn:Hmin; [|discriminate].
  cbn [bind] in Hrun.
  destruct (Np.mean_rows (map _ S)) as [shifted|e]; [|discriminate].
  cbn [bind] in Hrun.
  destruct (Np.multiply shifted _) as [b1|e]; [|discriminate].
  cbn [bind] in Hrun.
  destruct (Np.multiply b1 _) as [b2|e]; [|discriminate].
  cbn [bind] in Hrun.
  destruct (Np.divide_scalar _ _) as [normalized|e] eqn:Hdiv; [|discriminate].
  split; [apply (@mean_rows_nonempty S raw Hraw)|]. split.
  - apply divide_scalar_spec in Hdiv as [_ Hd]. intros ->. apply Hd.
    rewrite Z.sub_diag. reflexivity.
  - intros Hshape ->. simpl in Hshape.
    apply amin_spec in Hmin as [Hin _].
    rewrite (concat_empty_rows Hshape) in Hin. contradiction.
Qed.

Lemma ranking_chunks (h : heap) (chunks : list ref) (raw shifted : list Q)
    (cross_min : Q) (model_min model_max : Z) :
  length raw = length chunks -> length shifted = length chunks ->
  Permutation
    (map scored_chunk
         (ranking E h chunks raw shifted cross_min model_min model_max))
    chunks.
Proof.
  intros Hraw Hsh. unfold ranking.
  eapply perm_trans; [apply Permutation_map, sorted_desc_perm|].
  rewrite zip4_chunks; [apply Permutation_refl | | exact Hraw | apply length_seq].
  unfold normalized_scores. rewrite !length_map, map2_length;
    rewrite map2_length; rewrite ?length_map; congruence.
Qed.

(** C2.  Whenever [rerank_chunks] returns (the ensemble giving one score
    per passage, as its interface says), the returned list is as long as
    the input, its head slice [[:num_rerank]] is a permutation of the head
    slice of the input, its tail slice [[num_rerank:]] is the tail slice of
    the input unchanged, and every chunk of that tail has an absent score.
    The call does return when the head slice is not empty, the ensemble has
    a model and the target range is not degenerate. *)
Theorem rerank_chunks_permutes_head_keeps_tail (range_min range_max : Z)
    (h : heap) (q : SearchQuery) (chunks_to_rerank : list ref) :
  let k := num_rerank q in
  let head := Py.slice_to k chunks_to_rerank in
  let passages := map (fun c => content (h c)) head in
  (forall S, predict E (query q) passages = Ok S ->
             Forall (fun row => length row = length head) S) ->
  (forall h' ranked,
     rerank_chunks E range_min range_max h q chunks_to_rerank = Ok (h', ranked) ->
     length ranked = length chunks_to_rerank /\
     Permutation (Py.slice_to k ranked) head /\
     Py.slice_from k ranked = Py.slice_from k chunks_to_rerank /\
     (forall r, In r (Py.slice_from k ranked) -> score (h' r) = None)) /\
  (forall S, predict E (query q) passages = Ok S -> S <> [] -> head <> [] ->
             range_min <> range_max ->
             exists h' ranked,
               rerank_chunks E range_min range_max h q chunks_to_rerank
               = Ok (h', ranked)).
Proof.
  intros k head passages Hshape. split.
  - intros h' ranked Hrun. unfold rerank_chunks in Hrun.
    fold k in Hrun. fold head in Hrun.
    destruct (semantic_reranking E h (query q) head range_min range_max)
      as [[h1 [ranked_chunks idx]]|e] eqn:Hsem; [|discriminate].
    cbn [bind] in Hrun. injection Hrun as <- <-.
    destruct (@semantic_reranking_returns h (query q) head range_min range_max
                _ Hsem)
      as (S & Hpred & HS & Hrange & Hne).
    specialize (Hshape S Hpred).
    destruct (@semantic_reranking_run h (query q) head range_min range_max S
                Hpred HS (Hne Hshape) Hshape Hrange)
      as (cross_min & raw & shifted & _ & Hlraw & Hlsh & _ & Hrun).
    cbv zeta in Hrun. rewrite Hsem in Hrun. injection Hrun as _ -> _.
    pose proof (@ranking_chunks h head raw shifted cross_min range_min
                  range_max Hlraw Hlsh) as Hperm.
    destruct (@slices_of_replaced_head _ k chunks_to_rerank _
                (Permutation_length Hperm)) as (Hto & Hfrom & Hlen).
    fold head in Hto, Hfrom, Hlen.
    split; [exact Hlen|]. split; [rewrite Hto; exact Hperm|].
    split; [exact Hfrom|].
    intros r Hr. rewrite Hfrom in Hr. apply clear_scores_cleared, Hr.
  - intros S Hpred HS Hhead Hrange.
    destruct (@semantic_reranking_run h (query q) head range_min range_max S
                Hpred HS Hhead (Hshape S Hpred) Hrange)
      as (cross_min & raw & shifted & _ & _ & _ & _ & Hrun).
    cbv zeta in Hrun. unfold rerank_chunks. fold k. fold head.
    rewrite Hrun. cbn [bind]. eexists _, _. reflexivity.
Qed.

Lemma map2_nth_error {A B C : Type} (f : A -> B -> C) (a : list A) (b : list B)
    (i : nat) (z : C) :
  nth_error (Np.map2 f a b) i = Some z ->
  exists x y, nth_error a i = Some x /\ nth_error b i = Some y /\ z = f x y.
Proof.
  revert b i. induction a as [|x a IH]; intros [|y b] i; simpl;
    try (destruct i; discriminate).
  destruct i as [|i]; simpl.
  - intros [= <-]. exists x, y. repeat split.
  - apply IH.
Qed.

Lemma map_nth_error_inv {A B : Type} (f : A -> B) (l : list A) (i : nat) (y : B) :
  nth_error (map f l) i = Some y -> exists x, nth_error l i = Some x /\ y = f x.
Proof.
  rewrite nth_error_map. destruct (nth_error l i) as [x|]; simpl;
    [intros [= <-]; exists x; split; reflexivity | discriminate].
Qed.

Lemma combine_maps {A B C : Type} (f : A -> B) (g : A -> C) (l : list A) :
  combine (map f l) (map g l) = map (fun x => (f x, g x)) l.
Proof. induction l as [|x l IH]; simpl; [reflexivity | rewrite IH; reflexivity]. Qed.

Lemma Forall2_maps {A B C : Type} (P : B -> C -> Prop) (f : A -> B) (g : A -> C)
    (l : list A) :
  (forall x, In x l -> P (f x) (g x)) -> Forall2 P (map f l) (map g l).
Proof.
  induction l as [|x l IH]; simpl; intro H; constructor.
  - apply H. left. reflexivity.
  - apply IH. intros y Hy. apply H. right. exact Hy.
Qed.

Lemma column_shifted (S : list (list Q)) (f : Q -> Q) (i n : nat) :
  Forall (fun row => length row = n) S -> (i < n)%nat ->
  column (map (map f) S) i = map f (column S i).
Proof.
  intros Hshape Hi. unfold column. rewrite !map_map.
  apply map_ext_in. intros row Hrow. rewrite Forall_forall in Hshape.
  rewrite (nth_indep _ 0%Q (f 0%Q)) by (rewrite length_map, (Hshape row Hrow); exact Hi).
  apply map_nth.
Qed.

(** The key of a score row is the specified score of its passage. *)
Lemma ranking_key_spec (h : heap) (chunks : list ref) (raw shifted : list Q)
    (cross_min : Q) (model_min model_max : Z) (S : list (list Q)) (x : scored) :
  Forall (fun row => length row = length chunks) S ->
  (forall i, (i < length chunks)%nat ->
     (nth i shifted 0 ==
      mean (column (map (map (fun x => x - cross_min)) S) i))%Q) ->
  In x (ranking E h chunks raw shifted cross_min model_min model_max) ->
  nth_error chunks (scored_index x) = Some (scored_chunk x) /\
  (scored_key x ==
   rerank_score_spec S cross_min (scored_index x) (boost_of E h (scored_chunk x))
                     (recency_bias (h (scored_chunk x))) model_min model_max)%Q.
Proof.
  intros Hshape Hsh Hin. unfold ranking in Hin.
  apply (proj1 (sorted_desc_In _ _ _)) in Hin.
  apply zip4_In in Hin as (Hkey & Hchunk & Hi).
  split; [exact Hchunk|].
  apply map_nth_error_inv in Hkey as (y & Hy & ->).
  unfold normalized_scores in Hy.
  apply map_nth_error_inv in Hy as (z & Hz & ->).
  apply map2_nth_error in Hz as (u & re & Hu & Hre & ->).
  apply map2_nth_error in Hu as (sh & bo & Hs & Hbo & ->).
  apply map_nth_error_inv in Hre as (c1 & Hc1 & ->).
  apply map_nth_error_inv in Hbo as (c2 & Hc2 & ->).
  assert (c1 = scored_chunk x) as -> by congruence.
  assert (c2 = scored_chunk x) as -> by congruence.
  rewrite <- (nth_error_nth _ _ 0%Q Hs), (Hsh _ Hi).
  rewrite (column_shifted _ Hshape Hi).
  unfold rerank_score_spec.
  assert (Hd : (inject_Z (model_max - model_min)
                == inject_Z model_max - inject_Z model_min)%Q).
  { unfold Qeq, Qminus, Qplus, Qopp, inject_Z. simpl. lia. }
  rewrite Hd. reflexivity.
Qed.

(** C5.  On a chunk list of distinct chunks and a score matrix [S] of shape
    (models, N), [semantic_reranking] returns; the chunk at each output
    position is the input chunk at the index returned for that position,
    its score is the specified one (the mean over the models of
    [S - min(S)], times boost and recency, plus [min(S)] minus [model_min],
    over [model_max - model_min]), the indices are a permutation of the
    positions, and the output is in descending score order. *)
Theorem semantic_reranking_scores (h : heap) (query_text : string)
    (chunks : list ref) (model_min model_max : Z) (S : list (list Q)) :
  predict E query_text (map (fun c => content (h c)) chunks) = Ok S ->
  S <> [] -> chunks <> [] ->
  Forall (fun row => length row = length chunks) S ->
  model_min <> model_max ->
  NoDup chunks ->
  exists h' ranked indices cross_min,
    semantic_reranking E h query_text chunks model_min model_max
    = Ok (h', (ranked, indices)) /\
    is_minimum cross_min (concat S) /\
    Permutation indices (seq 0 (length chunks)) /\
    Forall2 (fun r i =>
               nth_error chunks i = Some r /\
               exists s, score (h' r) = Some s /\
                 (s == rerank_score_spec S cross_min i (boost_of E h r)
                         (recency_bias (h r)) model_min model_max)%Q)
            ranked indices /\
    StronglySorted (desc (score_or_0 h')) ranked.
Proof.
  intros Hpred HS Hchunks Hshape Hrange Hnd.
  destruct (@semantic_reranking_run h query_text chunks model_min model_max S
              Hpred HS Hchunks Hshape Hrange)
    as (cross_min & raw & shifted & Hmin & Hlraw & Hlsh & Hsh & Hrun).
  cbv zeta in Hrun.
  set (sr := ranking E h chunks raw shifted cross_min model_min model_max) in *.
  set (h' := assign_scores h (combine (map scored_chunk sr) (map scored_key sr)))
    in *.
  exists h', (map scored_chunk sr), (map scored_index sr), cross_min.
  pose proof (@ranking_chunks h chunks raw shifted cross_min model_min
                model_max Hlraw Hlsh) as Hperm. fold sr in Hperm.
  assert (Hscore : forall x, In x sr -> score (h' (scored_chunk x)) = Some (scored_key x)).
  { intros x Hx. unfold h'. apply assign_scores_distinct.
    - rewrite map_fst_combine by (rewrite !length_map; reflexivity).
      apply (Permutation_NoDup (Permutation_sym Hperm) Hnd).
    - rewrite combine_maps. apply in_map_iff. exists x. split; [reflexivity | exact Hx]. }
  split; [exact Hrun|]. split; [apply amin_spec, Hmin|]. split; [|split].
  - unfold sr, ranking.
    eapply perm_trans; [apply Permutation_map, sorted_desc_perm|].
    rewrite zip4_indices; [apply Permutation_refl | | | ];
      rewrite length_seq; [|exact Hlraw | reflexivity].
    unfold normalized_scores. rewrite !length_map, map2_length;
      rewrite map2_length; rewrite ?length_map; congruence.
  - apply Forall2_maps. intros x Hx.
    destruct (@ranking_key_spec h chunks raw shifted cross_min model_min
                model_max S x Hshape Hsh Hx) as [Hc Hk].
    split; [exact Hc|]. exists (scored_key x). split; [apply Hscore, Hx | exact Hk].
  - apply StronglySorted_map with (R := desc scored_key);
      [|apply sorted_desc_sorted].
    intros x y Hx Hy Hxy. unfold desc, score_or_0 in *.
    rewrite (Hscore x Hx), (Hscore y Hy), !or_zero_some. exact Hxy.
Qed.

End Reranker.

(** ** QueryExpander *)

Lemma str_in_iff (x : string) (xs : list string) :
  Py.str_in x xs = true <-> In x xs.
Proof.
  unfold Py.str_in. rewrite existsb_exists. split.
  - intros (y & Hy & Heq). apply String.eqb_eq in Heq. subst. exact Hy.
  - intro H. exists x. split; [exact H | apply String.eqb_refl].
Qed.

Lemma expansion_step_inv (seen : list string) (st : list string * list string)
    (rephrase : string) :
  expansion_inv seen st ->
  expansion_inv (seen ++ [rephrase]) (expansion_step st rephrase).
Proof.
  destruct st as [simplified run]. intros (Hsame & Hnd & Hcover & Hfrom).
  simpl in *. unfold expansion_step.
  destruct (Py.str_in (_simplify_text rephrase) simplified) eqn:Hin;
    unfold expansion_inv; simpl.
  - apply str_in_iff in Hin. split; [exact Hsame|]. split; [exact Hnd|]. split.
    + intros r Hr. apply in_app_or in Hr as [Hr|[<-|[]]];
        [apply Hcover, Hr | apply Hsame, Hin].
    + intros r Hr. apply in_or_app. left. apply Hfrom, Hr.
  - assert (Hnew : ~ In (_simplify_text rephrase) (map _simplify_text run)).
    { intro H. apply Hsame in H. apply str_in_iff in H. congruence. }
    rewrite map_app. simpl. split; [|split; [|split]].
    + intro s. rewrite in_app_iff. simpl. rewrite Hsame. tauto.
    + apply NoDup_app; [exact Hnd | constructor; [intros [] | constructor] |].
      intros s Hs [<-|[]]. apply Hnew, Hs.
    + intros r Hr. apply in_or_app.
      apply in_app_or in Hr as [Hr|[<-|[]]];
        [left; apply Hcover, Hr | right; left; reflexivity].
    + intros r Hr. apply in_or_app.
      apply in_app_or in Hr as [Hr|[<-|[]]];
        [left; apply Hfrom, Hr | right; left; reflexivity].
Qed.

Lemma expansion_loop_inv (todo seen : list string)
    (st : list string * list string) :
  expansion_inv seen st ->
  expansion_inv (seen ++ todo) (fold_left expansion_step todo st).
Proof.
  revert seen st. induction todo as [|r todo IH]; intros seen st Hinv; simpl.
  - rewrite app_nil_r. exact Hinv.
  - replace (seen ++ r :: todo) with ((seen ++ [r]) ++ todo)
      by (rewrite <- app_assoc; reflexivity).
    apply IH, expansion_step_inv, Hinv.
Qed.

Section Expansion.
Variable E : Collaborators.

(** X17.  The part of the expansion guarantee the code keeps, whatever order
    the set of rephrases is iterated in: no two retrieved queries have one
    canonical form, every retrieved query is a rephrase or the original,
    and when the iteration visits the original some retrieved query has
    the canonical form of the original. *)
Lemma expanded_queries_distinct (original languages : string) :
  let rephrases := rephrase_query E original languages ++ [original] in
  let run := expanded_queries E original languages in
  NoDup (map _simplify_text run) /\
  (forall r, In r run -> In r (set_iteration E rephrases)) /\
  (In original (set_iteration E rephrases) ->
   exists r, In r run /\ _simplify_text r = _simplify_text original).
Proof.
  intros rephrases run.
  assert (Hinv : expansion_inv (set_iteration E rephrases)
                   (fold_left expansion_step (set_iteration E rephrases) ([], []))).
  { apply (expansion_loop_inv (set_iteration E rephrases) (seen := [])).
    repeat split; simpl; try tauto. constructor. }
  destruct Hinv as (_ & Hnd & Hcover & Hfrom).
  split; [exact Hnd|]. split; [exact Hfrom|].
  intro Hin. apply Hcover in Hin. apply in_map_iff in Hin as (r & Heq & Hr).
  exists r. split; [exact Hr | exact Heq].
Qed.

End Expansion.

Lemma expansion_loop_keeps (todo : list string)
    (st : list string * list string) (x : string) :
  In x (snd st) -> In x (snd (fold_left expansion_step todo st)).
Proof.
  revert st. induction todo as [|r todo IH]; intros [simplified run] Hin;
    simpl in *; [exact Hin|].
  apply IH. unfold expansion_step.
  destruct (Py.str_in (_simplify_text r) simplified); simpl; [exact Hin|].
  apply in_or_app. left. exact Hin.
Qed.

(** A query whose canonical form has been seen is never queued. *)
Lemma expansion_loop_skips (todo : list string)
    (st : list string * list string) (x : string) :
  In (_simplify_text x) (fst st) -> ~ In x (snd st) ->
  ~ In x (snd (fold_left expansion_step todo st)).
Proof.
  revert st. induction todo as [|r todo IH]; intros [simplified run] Hseen Hout;
    simpl in *; [exact Hout|].
  apply IH; unfold expansion_step;
    destruct (Py.str_in (_simplify_text r) simplified) eqn:Hr; simpl;
    try assumption.
  - right. exact Hseen.
  - intro Hin. apply in_app_or in Hin as [Hin|[->|[]]]; [contradiction|].
    apply (proj2 (str_in_iff _ _)) in Hseen. congruence.
Qed.

(** C7 (the code departs from the claim).  The original query is not always
    among the retrieved queries: when the set of rephrases is iterated
    starting with a rephrase that differs from the original only up to the
    canonical form, that rephrase is retrieved and the original is dropped
    as its duplicate. *)
Theorem expansion_can_drop_the_original (E : Collaborators)
    (original languages first : string) (rest : list string) :
  set_iteration E (rephrase_query E original languages ++ [original])
  = first :: rest ->
  first <> original ->
  _simplify_text first = _simplify_text original ->
  In first (expanded_queries E original languages) /\
  ~ In original (expanded_queries E original languages).
Proof.
  intros Horder Hne Hsame. unfold expanded_queries. rewrite Horder. simpl.
  split.
  - apply expansion_loop_keeps. left. reflexivity.
  - apply expansion_loop_skips; simpl.
    + left. exact Hsame.
    + intros [H|[]]. contradiction.
Qed.

Lemma expansion_can_drop_the_original_witness :
  In "q"%string (expanded_queries Sample.models "Q" "en,es") /\
  ~ In "Q"%string (expanded_queries Sample.models "Q" "en,es").
Proof.
  apply (@expansion_can_drop_the_original Sample.models "Q" "en,es" "q"
           ["Q"%string]).
  - reflexivity.
  - discriminate.
  - reflexivity.
Defined.

(** ** Pipeline: [full_chunk_search_generator] *)

Section Generator.
Variable E : Collaborators.
Variables range_min range_max : Z.

Lemma semantic_reranking_fields (h h1 : heap) (query_text : string)
    (chunks : list ref) (model_min model_max : Z) (r : list ref * list nat) :
  semantic_reranking E h query_text chunks model_min model_max = Ok (h1, r) ->
  forall x, same_fields (h x) (h1 x).
Proof.
  unfold semantic_reranking. intro Hrun.
  destruct (predict E query_text _) as [S|e]; [|discriminate].
  cbn [bind] in Hrun.
  destruct (Np.mean_rows S) as [raw|e]; [|discriminate]. cbn [bind] in Hrun.
  destruct (Np.amin S) as [cross_min|e]; [|discriminate]. cbn [bind] in Hrun.
  destruct (Np.mean_rows (map _ S)) as [shifted|e]; [|discriminate].
  cbn [bind] in Hrun.
  destruct (Np.multiply shifted _) as [b1|e]; [|discriminate].
  cbn [bind] in Hrun.
  destruct (Np.multiply b1 _) as [b2|e]; [|discriminate]. cbn [bind] in Hrun.
  destruct (Np.divide_scalar _ _) as [normalized|e]; [|discriminate].
  cbn [bind] in Hrun.
  destruct (Py.sorted_desc scored_key _) as [|x0 rest]; [discriminate|].
  injection Hrun as <- _. intro x.
  apply (assign_scores_fields
           ((scored_chunk x0, scored_key x0)
              :: combine (map scored_chunk rest) (map scored_key rest)) h x).
Qed.

Lemma rerank_chunks_fields (h h1 : heap) (q : SearchQuery)
    (chunks : list ref) (ranked : list ref) :
  rerank_chunks E range_min range_max h q chunks = Ok (h1, ranked) ->
  forall x, same_fields (h x) (h1 x).
Proof.
  unfold rerank_chunks. intro Hrun.
  destruct (semantic_reranking E h (query q) _ range_min range_max)
    as [[h0 [ranked_chunks idx]]|e] eqn:Hsem; [|discriminate].
  cbn [bind] in Hrun. injection Hrun as <- _. intro x.
  eapply same_fields_trans;
    [apply (@semantic_reranking_fields _ _ _ _ _ _ _ Hsem)
    | apply clear_scores_fields].
Qed.

Lemma same_fields_unique_id (h h1 : heap) :
  (forall x, same_fields (h x) (h1 x)) ->
  forall x, unique_id E h1 x = unique_id E h x.
Proof.
  intros H x. unfold unique_id. destruct (H x) as (-> & -> & _). reflexivity.
Qed.

Lemma same_fields_contents (h h1 : heap) (l : list ref) :
  (forall x, same_fields (h x) (h1 x)) ->
  map (fun c => content (h1 c)) l = map (fun c => content (h c)) l.
Proof.
  intro H. apply map_ext. intro x. destruct (H x) as (_ & _ & -> & _).
  reflexivity.
Qed.

(** C3 (the code departs from the claim).  When retrieval returns chunks,
    reranking is due and the rerank task raises, the generator yields one
    value only, the mask; [full_chunk_search], which takes two values from
    it, ends in [StopIteration]. *)
Theorem generator_yields_once_when_rerank_fails (h : heap) (q : SearchQuery)
    (document_index : DocumentIndex) (hybrid_alpha : Q)
    (multilingual_query_expansion : option string) (e : exn) :
  let retrieved :=
    retrieve_chunks E h q document_index hybrid_alpha
                    multilingual_query_expansion in
  retrieved <> [] ->
  should_rerank q = true ->
  rerank_chunks E range_min range_max h q retrieved = Raise e ->
  (exists mask,
     snd (full_chunk_search_generator E range_min range_max h q document_index
            hybrid_alpha multilingual_query_expansion) = [Yield_mask mask] /\
     length mask = length retrieved) /\
  full_chunk_search E range_min range_max h q document_index hybrid_alpha
                    multilingual_query_expansion = Raise StopIteration.
Proof.
  intros retrieved Hne Hshould Hraise.
  assert (Hgen : exists mask,
     snd (full_chunk_search_generator E range_min range_max h q document_index
            hybrid_alpha multilingual_query_expansion) = [Yield_mask mask] /\
     length mask = length retrieved).
  { unfold full_chunk_search_generator. fold retrieved.
    destruct retrieved as [|c0 cs] eqn:Hret; [contradiction|].
    rewrite Hshould.
    destruct (should_apply_llm_based_relevance_filter q); cbn [app length].
    - cbn [run_functions_in_parallel execute]. rewrite Hraise. cbn [bind].
      destruct (filter_chunks E h q _) as [ids|e']; cbn [bind];
        cbn -[Py.str_in unique_id]; eexists; (split; [reflexivity|]);
        simpl length; rewrite ?length_map; reflexivity.
    - cbn [run_functions_in_parallel execute]. rewrite Hraise.
      cbn -[Py.str_in unique_id]. eexists. split; [reflexivity|].
      simpl length. rewrite ?length_map. reflexivity. }
  split; [exact Hgen|].
  destruct Hgen as (mask & Hgen & _). unfold full_chunk_search.
  rewrite Hgen. reflexivity.
Qed.

Lemma slice_to_nonneg {A : Type} (k : Z) (xs : list A) :
  (0 <= k)%Z -> Py.slice_to k xs = firstn (Z.to_nat k) xs.
Proof.
  intro Hk. unfold Py.slice_to, Py.slice_bound.
  destruct (Z.leb_spec 0 k); [reflexivity | lia].
Qed.

Lemma slice_to_twice {A : Type} (k : Z) (xs : list A) :
  (0 <= k)%Z -> Py.slice_to k (Py.slice_to k xs) = Py.slice_to k xs.
Proof.
  intro Hk. rewrite !slice_to_nonneg by exact Hk.
  rewrite firstn_firstn, Nat.min_id. reflexivity.
Qed.

Lemma nth_error_firstn_Some {A : Type} (n j : nat) (l : list A) (x : A) :
  nth_error (firstn n l) j = Some x <-> (j < n)%nat /\ nth_error l j = Some x.
Proof.
  revert j l. induction n as [|n IH]; intros j l; simpl.
  - split; [destruct j; discriminate | lia].
  - destruct l as [|y l]; simpl.
    + split; [destruct j; discriminate | intros [_ H]; destruct j; discriminate].
    + destruct j as [|j]; simpl; [split; [intro H; split; [lia | exact H] | tauto]|].
      rewrite IH. split; intros [H1 H2]; (split; [lia | exact H2]).
Qed.

(** The comprehension keeps the ids of the chunks the judge marked. *)
Lemma select_relevant_spec (h : heap) (selection : list bool) (chunks : list ref)
    (ind : nat) :
  (ind + length chunks <= length selection)%nat ->
  exists ids,
    select_relevant E h selection ind chunks = Ok ids /\
    forall u, In u ids <->
              exists j c, nth_error chunks j = Some c /\
                          nth_error selection (ind + j) = Some true /\
                          unique_id E h c = u.
Proof.
  revert ind. induction chunks as [|c chunks IH]; intros ind Hlen; simpl in *.
  - exists []. split; [reflexivity|]. intro u. split; [intros []|].
    intros (j & c & Hj & _). destruct j; discriminate.
  - destruct (nth_error selection ind) as [keep|] eqn:Hk.
    2:{ apply nth_error_None in Hk. lia. }
    destruct (IH (S ind)) as (ids & Hrun & Hids); [lia|].
    rewrite Hrun. cbn [bind]. eexists. split; [reflexivity|].
    intro u. split.
    + intro Hin.
      assert (Hcases : (keep = true /\ unique_id E h c = u) \/ In u ids).
      { destruct keep; [destruct Hin as [Hin|Hin]; [left; split; [reflexivity | exact Hin] | right; exact Hin] | right; exact Hin]. }
      destruct Hcases as [[-> Hu]|Hin'].
      * exists 0%nat, c. rewrite Nat.add_0_r. repeat split; assumption.
      * apply Hids in Hin' as (j & c' & Hj & Hs & Hu).
        exists (S j), c'. rewrite Nat.add_succ_r. repeat split; assumption.
    + intros (j & c' & Hj & Hs & Hu). destruct j as [|j]; simpl in Hj.
      * injection Hj as ->. rewrite Nat.add_0_r, Hk in Hs.
        injection Hs as ->. left. exact Hu.
      * assert (Hin : In u ids).
        { apply Hids. exists j, c'. rewrite Nat.add_succ_r in Hs.
          repeat split; assumption. }
        destruct keep; [right; exact Hin | exact Hin].
Qed.

Lemma filter_chunks_judged (h hf : heap) (q : SearchQuery)
    (retrieved : list ref) (judged : list bool) :
  (forall x, same_fields (h x) (hf x)) ->
  (0 <= max_llm_filter_chunks q)%Z ->
  llm_batch_eval_chunks E (query q)
    (map (fun c => content (h c))
         (Py.slice_to (max_llm_filter_chunks q) retrieved)) = Ok judged ->
  length judged = length (Py.slice_to (max_llm_filter_chunks q) retrieved) ->
  exists ids,
    filter_chunks E hf q (Py.slice_to (max_llm_filter_chunks q) retrieved)
    = Ok ids /\
    forall u, In u ids <->
              exists j c, (Z.of_nat j < max_llm_filter_chunks q)%Z /\
                          nth_error retrieved j = Some c /\
                          nth_error judged j = Some true /\
                          unique_id E h c = u.
Proof.
  intros Hsame Hm Hjudge Hlen. unfold filter_chunks.
  rewrite slice_to_twice by exact Hm.
  rewrite (@same_fields_contents h hf _ Hsame), Hjudge. cbn [bind].
  destruct (@select_relevant_spec hf judged
              (Py.slice_to (max_llm_filter_chunks q) retrieved) 0)
    as (ids & Hrun & Hids); [simpl; lia|].
  exists ids. split; [exact Hrun|].
  intro u. rewrite Hids. rewrite slice_to_nonneg by exact Hm.
  split; intros (j & c & H).
  - destruct H as (Hj & Hs & Hu). apply nth_error_firstn_Some in Hj as [Hjm Hj].
    exists j, c. rewrite <- (@same_fields_unique_id h hf Hsame).
    repeat split; try assumption. lia.
  - destruct H as (Hjm & Hj & Hs & Hu). exists j, c.
    rewrite (@same_fields_unique_id h hf Hsame).
    repeat split; try assumption. apply nth_error_firstn_Some. split; [lia | exact Hj].
Qed.

(** The mask of a run that yielded twice with the filter on. *)
Lemma generator_mask_of_filter (h : heap) (q : SearchQuery)
    (document_index : DocumentIndex) (hybrid_alpha : Q)
    (multilingual_query_expansion : option string)
    (first : list ref) (mask : list bool) :
  let retrieved :=
    retrieve_chunks E h q document_index hybrid_alpha
                    multilingual_query_expansion in
  retrieved <> [] ->
  should_apply_llm_based_relevance_filter q = true ->
  snd (full_chunk_search_generator E range_min range_max h q document_index
         hybrid_alpha multilingual_query_expansion)
  = [Yield_chunks first; Yield_mask mask] ->
  exists hf,
    (forall x, same_fields (h x) (hf x)) /\
    mask =
    match filter_chunks E hf q
            (Py.slice_to (max_llm_filter_chunks q) retrieved) with
    | Ok ids => map (fun c => Py.str_in (unique_id E hf c) ids) first
    | Raise _ => map (fun _ => true) first
    end.
Proof.
  intros retrieved Hne Hfilter. unfold full_chunk_search_generator.
  fold retrieved. destruct retrieved as [|c0 cs] eqn:Hret; [contradiction|].
  rewrite Hfilter.
  destruct (should_rerank q); cbn [app length].
  - cbn [run_functions_in_parallel execute].
    destruct (rerank_chunks E range_min range_max h q (c0 :: cs))
      as [[h1 ranked]|e] eqn:Hrr; cbn [bind fst snd].
    + pose proof (@rerank_chunks_fields h h1 q (c0 :: cs) ranked Hrr) as Hsame.
      destruct (filter_chunks E h1 q _) as [ids|e'] eqn:Hf; cbn [bind];
        (destruct ranked as [|r0 rs];
         cbn -[Py.str_in unique_id Py.slice_to]; intro Hy;
         [discriminate Hy|]; injection Hy as <- <-;
         exists h1; split; [exact Hsame|]; rewrite Hf; reflexivity).
    + destruct (filter_chunks E h q _) as [ids|e'] eqn:Hf; cbn [bind];
        cbn -[Py.str_in unique_id Py.slice_to]; intro Hy; discriminate Hy.
  - cbn [run_functions_in_parallel execute].
    destruct (filter_chunks E h q _) as [ids|e'] eqn:Hf; cbn [bind];
      cbn -[Py.str_in unique_id Py.slice_to]; intro Hy;
      injection Hy as <- <-; exists h;
      (split; [intro x; apply same_fields_refl|]); rewrite Hf; reflexivity.
Qed.

(** C9.  When the relevance filter runs and the judge answers with one
    verdict per judged chunk, the mask yielded second is aligned with the
    list yielded first, and it is [True] at a position exactly when the
    chunk there, identified by its unique id, is one of the first
    [max_llm_filter_chunks] chunks in retrieval order and was judged
    relevant; a chunk that is not among those first chunks gets [False],
    so with distinct unique ids every chunk beyond the truncation does. *)
Theorem filter_mask_marks_judged_relevant (h : heap) (q : SearchQuery)
    (document_index : DocumentIndex) (hybrid_alpha : Q)
    (multilingual_query_expansion : option string)
    (first : list ref) (mask judged : list bool) :
  let retrieved :=
    retrieve_chunks E h q document_index hybrid_alpha
                    multilingual_query_expansion in
  let limit := max_llm_filter_chunks q in
  should_apply_llm_based_relevance_filter q = true ->
  (0 <= limit)%Z ->
  llm_batch_eval_chunks E (query q)
    (map (fun c => content (h c)) (Py.slice_to limit retrieved)) = Ok judged ->
  length judged = length (Py.slice_to limit retrieved) ->
  snd (full_chunk_search_generator E range_min range_max h q document_index
         hybrid_alpha multilingual_query_expansion)
  = [Yield_chunks first; Yield_mask mask] ->
  length mask = length first /\
  forall i c, nth_error first i = Some c ->
    exists b, nth_error mask i = Some b /\
      (b = true <->
       exists j c', (Z.of_nat j < limit)%Z /\
                    nth_error retrieved j = Some c' /\
                    nth_error judged j = Some true /\
                    unique_id E h c' = unique_id E h c) /\
      ((forall j c', (Z.of_nat j < limit)%Z ->
                     nth_error retrieved j = Some c' ->
                     unique_id E h c' <> unique_id E h c) ->
       b = false) /\
      (NoDup (map (unique_id E h) retrieved) ->
       forall p, (limit <= Z.of_nat p)%Z -> nth_error retrieved p = Some c ->
                 b = false).
Proof.
  intros retrieved limit Hfilter Hlimit Hjudge Hlen Hyields.
  destruct retrieved as [|c0 cs] eqn:Hret.
  { unfold full_chunk_search_generator in Hyields. fold retrieved in Hyields.
    rewrite Hret in Hyields. simpl in Hyields. injection Hyields as <- <-.
    split; [reflexivity|]. intros i c Hc. destruct i; discriminate. }
  assert (Hne : retrieve_chunks E h q document_index hybrid_alpha
                  multilingual_query_expansion <> []).
  { fold retrieved. rewrite Hret. discriminate. }
  destruct (generator_mask_of_filter h q document_index hybrid_alpha
              multilingual_query_expansion Hne Hfilter Hyields)
    as (hf & Hsame & Hmask).
  fold retrieved in Hmask. rewrite Hret in Hmask. fold limit in Hmask.
  destruct (@filter_chunks_judged h hf q (c0 :: cs) judged Hsame Hlimit Hjudge Hlen)
    as (ids & Hrun & Hids).
  fold limit in Hrun. rewrite Hrun in Hmask. subst mask.
  split; [apply length_map|].
  intros i c Hc. exists (Py.str_in (unique_id E hf c) ids).
  split; [rewrite nth_error_map, Hc; reflexivity|].
  assert (Hiff : Py.str_in (unique_id E hf c) ids = true <->
                 exists j c', (Z.of_nat j < limit)%Z /\
                              nth_error (c0 :: cs) j = Some c' /\
                              nth_error judged j = Some true /\
                              unique_id E h c' = unique_id E h c).
  { rewrite str_in_iff, Hids, (@same_fields_unique_id h hf Hsame). reflexivity. }
  split; [exact Hiff|].
  assert (Hnone : (forall j c', (Z.of_nat j < limit)%Z ->
                     nth_error (c0 :: cs) j = Some c' ->
                     unique_id E h c' <> unique_id E h c) ->
                  Py.str_in (unique_id E hf c) ids = false).
  { intro Hnone. destruct (Py.str_in (unique_id E hf c) ids); [|reflexivity].
    destruct (proj1 Hiff eq_refl) as (j & c' & Hj & Hc' & _ & Hu).
    exfalso. apply (Hnone j c' Hj Hc' Hu). }
  split; [exact Hnone|].
  intros Hnd p Hp Hcp. apply Hnone. intros j c' Hj Hc' Hu.
  assert (Hjp : j = p).
  { apply (proj1 (NoDup_nth_error _) Hnd).
    - rewrite length_map. apply nth_error_Some. congruence.
    - rewrite !nth_error_map, Hc', Hcp. simpl. congruence. }
  lia.
Qed.


End Generator.

(** * Runs on the sample data *)

(** A key keeps the place of its first appearance when a later, better
    chunk replaces the one stored for it: chunk 2 of key (a, 0) comes out
    in front of chunk 1, whose equal score was seen earlier. *)
Example merge_keeps_key_position :
  combine_retrieval_results Sample.retrieved_twice [[0; 1]%nat; [2; 3]%nat]
  = [2; 1; 3]%nat.
Proof. reflexivity. Qed.

(** Scenario 1 of the specification: equal scores, boost counts 0 and 3;
    the boosted chunk comes first and both scores are at least 0. *)
Example apply_boost_prefers_boosted :
  exists h',
    apply_boost Sample.models Sample.boosted_pair [0; 1]%nat 15 0 1
    = Ok (h', [1; 0]%nat) /\
    score (h' 1%nat) = Some (((1 # 2) - 0) * 2 * 1 / (1 - 0))%Q /\
    score (h' 0%nat) = Some (((1 # 2) - 0) * 1 * 1 / (1 - 0))%Q.
Proof.
  eexists. split; [vm_compute; reflexivity|]. split; vm_compute; reflexivity.
Qed.

(** Without reranking the retrieval order is yielded at once and the mask
    is aligned with it; only the first two chunks are judged. *)
Example keyword_search_yields_twice :
  snd (full_chunk_search_generator Sample.models (-12) 12 Sample.chunks3
         (mkQuery "what is alpha" KEYWORD [] false 10 2 2 false false)
         Sample.index3 (1 # 2) None)
  = [Yield_chunks [0; 1; 2]%nat; Yield_mask [false; true; false]].
Proof. vm_compute. reflexivity. Qed.

(** Scenario 3 of the specification, with the rephrase visited first: one
    retrieval runs, and it is not the one of the original query. *)
Example expansion_runs_the_rephrase_only :
  expanded_queries Sample.models "Q" "en,es" = ["q"%string].
Proof. reflexivity. Qed.

(** Scenario 2 of the specification: three chunks, [num_rerank = 2]; the
    first two change places and the third keeps its place with its score
    cleared. *)
Example rerank_two_of_three :
  exists h',
    rerank_chunks Sample.models (-12) 12 Sample.chunks3
                  (Sample.semantic_query 2 2 false false) [0; 1; 2]%nat
    = Ok (h', [1; 0; 2]%nat) /\
    score (h' 1%nat) = Some ((3 * 1 * 1 + 5 - inject_Z (-12)) / inject_Z (12 - -12))%Q /\
    score (h' 2%nat) = None.
Proof.
  eexists. split; [vm_compute; reflexivity|]. split; vm_compute; reflexivity.
Qed.

Lemma rerank_chunks_permutes_head_keeps_tail_witness :
  (forall h' ranked,
     rerank_chunks Sample.models (-12) 12 Sample.chunks3
                   (Sample.semantic_query 2 2 false false) [0; 1; 2]%nat
     = Ok (h', ranked) ->
     length ranked = 3%nat /\
     Permutation (Py.slice_to 2 ranked) [0; 1]%nat /\
     Py.slice_from 2 ranked = [2%nat] /\
     (forall r, In r (Py.slice_from 2 ranked) -> score (h' r) = None)) /\
  (forall S,
     predict Sample.models "what is alpha" ["alpha"%string; "beta two"%string]
     = Ok S ->
     S <> [] -> [0; 1]%nat <> [] -> (-12 <> 12)%Z ->
     exists h' ranked,
       rerank_chunks Sample.models (-12) 12 Sample.chunks3
                     (Sample.semantic_query 2 2 false false) [0; 1; 2]%nat
       = Ok (h', ranked)).
Proof.
  apply (@rerank_chunks_permutes_head_keeps_tail Sample.models (-12) 12
           Sample.chunks3 (Sample.semantic_query 2 2 false false) [0; 1; 2]%nat).
  intros S HS. injection HS as <-. constructor; [reflexivity | constructor].
Defined.

Lemma semantic_reranking_scores_witness :
  exists h' ranked indices cross_min,
    semantic_reranking Sample.models Sample.chunks3 "what is alpha"
                       [0; 1]%nat (-12) 12
    = Ok (h', (ranked, indices)) /\
    is_minimum cross_min (concat [[5 # 1; 8 # 1]]) /\
    Permutation indices (seq 0 2) /\
    Forall2 (fun r i =>
               nth_error [0; 1]%nat i = Some r /\
               exists s, score (h' r) = Some s /\
                 (s == rerank_score_spec [[5 # 1; 8 # 1]] cross_min i
                         (boost_of Sample.models Sample.chunks3 r)
                         (recency_bias (Sample.chunks3 r)) (-12) 12)%Q)
            ranked indices /\
    StronglySorted (desc (score_or_0 h')) ranked.
Proof.
  apply (@semantic_reranking_scores Sample.models Sample.chunks3
           "what is alpha" [0; 1]%nat (-12) 12 [[5 # 1; 8 # 1]]).
  - reflexivity.
  - discriminate.
  - discriminate.
  - constructor; [reflexivity | constructor].
  - discriminate.
  - constructor; [intros [H|[]]; discriminate H|].
    constructor; [intros [] | constructor].
Defined.

Lemma generator_yields_once_when_rerank_fails_witness :
  (exists mask,
     snd (full_chunk_search_generator Sample.models (-12) 12 Sample.chunks3
            (Sample.semantic_query 0 2 false false) Sample.index3 (1 # 2) None)
     = [Yield_mask mask] /\
     length mask = 3%nat) /\
  full_chunk_search Sample.models (-12) 12 Sample.chunks3
    (Sample.semantic_query 0 2 false false) Sample.index3 (1 # 2) None
  = Raise StopIteration.
Proof.
  apply (@generator_yields_once_when_rerank_fails Sample.models (-12) 12
           Sample.chunks3 (Sample.semantic_query 0 2 false false) Sample.index3
           (1 # 2) None ValueError).
  - discriminate.
  - reflexivity.
  - reflexivity.
Defined.

Lemma filter_mask_marks_judged_relevant_witness :
  length [true; false; false] = length [1; 0; 2]%nat /\
  forall i c, nth_error [1; 0; 2]%nat i = Some c ->
    exists b, nth_error [true; false; false] i = Some b /\
      (b = true <->
       exists j c', (Z.of_nat j < 2)%Z /\
                    nth_error [0; 1; 2]%nat j = Some c' /\
                    nth_error [false; true] j = Some true /\
                    unique_id Sample.models Sample.chunks3 c'
                    = unique_id Sample.models Sample.chunks3 c) /\
      ((forall j c', (Z.of_nat j < 2)%Z ->
                     nth_error [0; 1; 2]%nat j = Some c' ->
                     unique_id Sample.models Sample.chunks3 c'
                     <> unique_id Sample.models Sample.chunks3 c) ->
       b = false) /\
      (NoDup (map (unique_id Sample.models Sample.chunks3) [0; 1; 2]%nat) ->
       forall p, (2 <= Z.of_nat p)%Z ->
                 nth_error [0; 1; 2]%nat p = Some c -> b = false).
Proof.
  apply (@filter_mask_marks_judged_relevant Sample.models (-12) 12
           Sample.chunks3 (Sample.semantic_query 2 2 false false) Sample.index3
           (1 # 2) None [1; 0; 2]%nat [true; false; false] [false; true]).
  - reflexivity.
  - discriminate.
  - reflexivity.
  - reflexivity.
  - vm_compute. reflexivity.
Defined.

Lemma combine_retrieval_results_idempotent_witness :
  combine_retrieval_results Sample.chunks3
    [combine_retrieval_results Sample.chunks3 [[2; 0]%nat; [1; 0]%nat]]
  = combine_retrieval_results Sample.chunks3 [[2; 0]%nat; [1; 0]%nat] /\
  combine_retrieval_results Sample.chunks3 [[0; 1; 2]%nat] = [0; 1; 2]%nat.
Proof.
  destruct (combine_retrieval_results_idempotent Sample.chunks3) as [H1 H2].
  split; [apply H1|]. apply H2.
  - repeat constructor; simpl; intuition discriminate.
  - repeat constructor; unfold desc; simpl; discriminate.
Defined.

(** * More of [search_runner.py] *)

(** ** TextNormalizer *)

Lemma lower_char_idempotent (c : ascii) :
  lower_char (lower_char c) = lower_char c.
Proof.
  destruct c as [[] [] [] [] [] [] [] []]; vm_compute; reflexivity.
Qed.

Lemma lower_char_kept (c : ascii) :
  kept_char c = true -> kept_char (lower_char c) = true.
Proof.
  destruct c as [[] [] [] [] [] [] [] []]; vm_compute; intro H;
    first [reflexivity | discriminate H].
Qed.

Lemma lower_char_not_upper (c : ascii) : in_range 65 90 (lower_char c) = false.
Proof.
  destruct c as [[] [] [] [] [] [] [] []]; vm_compute; reflexivity.
Qed.

Lemma str_filter_kept (keep : ascii -> bool) (s : string) (c : ascii) :
  In c (list_ascii_of_string (str_filter keep s)) -> keep c = true.
Proof.
  induction s as [|a t IH]; simpl; [intros []|].
  destruct (keep a) eqn:Ha; simpl; [|exact IH].
  intros [<-|H]; [exact Ha | apply IH, H].
Qed.

Lemma str_map_chars (f : ascii -> ascii) (s : string) :
  list_ascii_of_string (str_map f s) = map f (list_ascii_of_string s).
Proof. induction s as [|a t IH]; simpl; [reflexivity | rewrite IH; reflexivity]. Qed.

Lemma str_filter_all_kept (keep : ascii -> bool) (s : string) :
  (forall c, In c (list_ascii_of_string s) -> keep c = true) ->
  str_filter keep s = s.
Proof.
  induction s as [|a t IH]; simpl; intro H; [reflexivity|].
  rewrite (H a) by (left; reflexivity). f_equal. apply IH.
  intros c Hc. apply H. right. exact Hc.
Qed.

Lemma str_map_lower_twice (s : string) :
  str_map lower_char (str_map lower_char s) = str_map lower_char s.
Proof.
  induction s as [|a t IH]; simpl; [reflexivity|].
  rewrite lower_char_idempotent, IH. reflexivity.
Qed.

Lemma simplified_chars (text : string) (c : ascii) :
  In c (list_ascii_of_string (_simplify_text text)) ->
  kept_char c = true /\ in_range 65 90 c = false.
Proof.
  unfold _simplify_text. rewrite str_map_chars. intro H.
  apply in_map_iff in H as (a & <- & Ha).
  apply str_filter_kept in Ha. split.
  - apply lower_char_kept, Ha.
  - apply lower_char_not_upper.
Qed.

(** X1.  [_simplify_text] is a canonical form: simplifying a simplified
    text changes nothing, and a simplified text holds no punctuation, no
    white space and no upper-case letter (on ASCII text). *)
Theorem simplify_text_canonical (text : string) :
  _simplify_text (_simplify_text text) = _simplify_text text /\
  forall c, In c (list_ascii_of_string (_simplify_text text)) ->
            is_punctuation c = false /\ isspace c = false /\
            in_range 65 90 c = false.
Proof.
  split.
  - unfold _simplify_text at 1.
    rewrite str_filter_all_kept.
    + unfold _simplify_text. apply str_map_lower_twice.
    + intros c Hc. apply (simplified_chars text c Hc).
  - intros c Hc. destruct (simplified_chars text c Hc) as [Hk Hu].
    unfold kept_char in Hk. apply andb_true_iff in Hk as [Hp Hs].
    apply negb_true_iff in Hp, Hs. repeat split; assumption.
Qed.

Section StopWords.
Variable N : Nltk.

(** X2.  [remove_stop_words_and_punctuation] never empties a query: when no
    token survives the removal, all the tokens are returned.  Its result is
    made of tokens of the text, and unless it is the whole token list, it
    holds no stop word and no punctuation. *)
Theorem remove_stop_words_falls_back (text : string) :
  let tokens := word_tokenize N text in
  let kept := remove_stop_words_and_punctuation N text in
  (tokens <> [] -> kept <> []) /\
  (forall word, In word kept -> In word tokens) /\
  (kept = tokens \/
   forall word, In word kept ->
     ~ In (str_map lower_char word) (stopwords_english N) /\
     str_contains word punctuation = false).
Proof.
  intros tokens kept. unfold kept, remove_stop_words_and_punctuation.
  fold tokens.
  destruct (filter (keep_word N) tokens) as [|w ws] eqn:Hf.
  - split; [tauto|]. split; [tauto | left; reflexivity].
  - split; [intros _; discriminate|]. rewrite <- Hf. split.
    + intros word Hw. apply filter_In in Hw. apply Hw.
    + right. intros word Hw. apply filter_In in Hw as [_ Hk].
      unfold keep_word in Hk. apply andb_true_iff in Hk as [Hs Hp].
      apply negb_true_iff in Hs, Hp. split; [|exact Hp].
      intro Hin. apply str_in_iff in Hin. congruence.
Qed.

End StopWords.

(** ** ScoreMath *)

Lemma min2_le_l (a b : Q) : (Py.min2 a b <= a)%Q.
Proof.
  unfold Py.min2. destruct (Py.lt b a) eqn:H.
  - apply lt_true_iff in H. apply Qlt_le_weak, H.
  - apply Qle_refl.
Qed.

Lemma max2_ge_l (a b : Q) : (a <= Py.max2 a b)%Q.
Proof.
  unfold Py.max2. destruct (Py.lt a b) eqn:H.
  - apply lt_true_iff in H. apply Qlt_le_weak, H.
  - apply Qle_refl.
Qed.

Lemma mapM_pure {A B : Type} (g : A -> result B) (f : A -> B) (l : list A) :
  (forall a, In a l -> g a = Ok (f a)) -> mapM g l = Ok (map f l).
Proof.
  induction l as [|a t IH]; simpl; intro H; [reflexivity|].
  rewrite (H a) by (left; reflexivity). cbn [bind].
  rewrite IH by (intros x Hx; apply H; right; exact Hx). reflexivity.
Qed.



Section ScoreMath.
Variable E : Collaborators.

Lemma norm_bounds_total (h : heap) (chunks : list ref) (norm_cutoff : Z)
    (norm_min norm_max : Q) :
  Py.slice_to norm_cutoff chunks <> [] ->
  exists nmin nmax,
    norm_bounds h chunks norm_cutoff norm_min norm_max = Ok (nmin, nmax) /\
    (nmin <= norm_min)%Q /\ (norm_max <= nmax)%Q.
Proof.
  intro Hne. unfold norm_bounds, Py.slice_to, Py.slice_bound in *.
  rewrite length_map, firstn_map.
  destruct (firstn _ chunks) as [|c t]; [contradiction|]. simpl.
  eexists _, _. split; [reflexivity|]. split; [apply min2_le_l | apply max2_ge_l].
Qed.


(** X3.  With a floor below the ceiling ([norm_min < norm_max], as the
    configured range is meant to be) [apply_boost] cannot meet a zero
    range: on every chunk list whose top slice is not empty it returns a
    permutation of its input with scores of at least 0. *)
Theorem apply_boost_returns_on_proper_range (h : heap) (chunks : list ref)
    (norm_cutoff : Z) (norm_min norm_max : Q) :
  (norm_min < norm_max)%Q ->
  Py.slice_to norm_cutoff chunks <> [] ->
  exists h' final_chunks,
    apply_boost E h chunks norm_cutoff norm_min norm_max = Ok (h', final_chunks) /\
    Permutation final_chunks chunks /\
    forall r, In r final_chunks ->
              exists s, score (h' r) = Some s /\ (0 <= s)%Q.
Proof.
  intros Hlt Hne.
  destruct (norm_bounds_total h chunks norm_cutoff norm_min norm_max Hne)
    as (nmin & nmax & Hb & Hlo & Hhi).
  apply (apply_boost_regular E h chunks norm_cutoff norm_min norm_max Hb).
  intro Heq. rewrite Heq in Hhi.
  apply (Qlt_irrefl norm_min).
  eapply Qlt_le_trans; [exact Hlt|]. eapply Qle_trans; [exact Hhi | exact Hlo].
Qed.


End ScoreMath.

Section LegacyFacts.
Variable E : Collaborators.

Lemma legacy_unnormed_total (scores boosts : list Q) (score_min score_range : Q) :
  length scores = length boosts ->
  exists us,
    legacy_unnormed_boosted_scores scores boosts score_min score_range = Ok us /\
    length us = length scores.
Proof.
  intro Hlen. unfold legacy_unnormed_boosted_scores.
  destruct (Qeq_bool score_range 0) eqn:Hz; simpl.
  - eexists. split; [reflexivity|].
    rewrite length_map, length_combine. lia.
  - apply Qeq_bool_neq in Hz.
    rewrite (mapM_pure _ (fun p : Q * Q =>
                            ((fst p - score_min) / score_range * snd p)%Q)).
    2:{ intros p _. rewrite truediv_nonzero by exact Hz. reflexivity. }
    cbn [bind]. eexists. split; [reflexivity|].
    rewrite !length_map, length_combine. lia.
Qed.

Lemma legacy_re_normed_total (us : list Q) (norm_min norm_range : Q) :
  exists rs,
    legacy_re_normed_scores us norm_min norm_range = Ok rs /\
    length rs = length us.
Proof.
  unfold legacy_re_normed_scores.
  destruct (Qeq_bool norm_range 0) eqn:Hz; simpl.
  - exists us. split; reflexivity.
  - apply Qeq_bool_neq in Hz.
    rewrite (mapM_pure _ (fun s => ((s - norm_min) / norm_range)%Q)).
    2:{ intros s _. apply truediv_nonzero, Hz. }
    eexists. split; [reflexivity | apply length_map].
Qed.

(** X5.  [apply_boost_legacy] guards both of its divisions: on every
    non-empty chunk list, whatever the scores and the range, it returns a
    permutation of its input with a score on every chunk; on the empty
    list the minimum of no scores raises [ValueError]. *)
Theorem apply_boost_legacy_guards_its_divisions (h : heap)
    (norm_min norm_max : Q) :
  apply_boost_legacy E h [] norm_min norm_max = Raise ValueError /\
  forall chunks, chunks <> [] ->
    exists h' final_chunks,
      apply_boost_legacy E h chunks norm_min norm_max = Ok (h', final_chunks) /\
      Permutation final_chunks chunks /\
      forall r, In r final_chunks -> exists s, score (h' r) = Some s.
Proof.
  split; [reflexivity|].
  intros chunks Hne. unfold apply_boost_legacy.
  assert (Hs : exists s0 st,
            map (fun c => Py.or_zero (score (h c))) chunks = s0 :: st).
  { destruct chunks as [|c0 cs]; [contradiction|]. simpl.
    eexists _, _. reflexivity. }
  set (scores := map (fun c => Py.or_zero (score (h c))) chunks) in *.
  set (boosts := map _ chunks).
  destruct Hs as (s0 & st & Hs).
  replace (Py.min_of scores) with (Ok (fold_left Py.min2 st s0))
    by (rewrite Hs; reflexivity).
  replace (Py.max_of scores) with (Ok (fold_left Py.max2 st s0))
    by (rewrite Hs; reflexivity).
  cbn [bind].
  destruct (legacy_unnormed_total scores boosts (fold_left Py.min2 st s0)
              (fold_left Py.max2 st s0 - fold_left Py.min2 st s0))
    as (us & Hus & Hlus).
  { unfold scores, boosts. rewrite !length_map. reflexivity. }
  rewrite Hus. cbn [bind].
  destruct (legacy_re_normed_total us
              (Py.min2 norm_min (fold_left Py.min2 st s0))
              (Py.max2 norm_max (fold_left Py.max2 st s0)
               - Py.min2 norm_min (fold_left Py.min2 st s0)))
    as (rs & Hrs & Hlrs).
  rewrite Hrs. cbn [bind].
  assert (Hlen : length rs = length chunks).
  { rewrite Hlrs, Hlus. unfold scores. apply length_map. }
  set (rescored := Py.sorted_desc fst (combine rs chunks)).
  assert (Hperm : Permutation (map snd rescored) chunks).
  { eapply perm_trans; [apply Permutation_map, sorted_desc_perm|].
    rewrite map_snd_combine by exact Hlen. apply Permutation_refl. }
  destruct rescored as [|p rest] eqn:Hres.
  { apply Permutation_nil in Hperm. congruence. }
  rewrite <- Hres in *. eexists _, _. split; [reflexivity|].
  split; [exact Hperm|].
  intros r Hr.
  destruct (assign_scores_written
              (combine (map snd rescored) (map fst rescored)) h r)
    as (s & _ & Hscore).
  { rewrite map_fst_combine by (rewrite !length_map; reflexivity). exact Hr. }
  exists s. exact Hscore.
Qed.

End LegacyFacts.

(** ** Reranker *)



Lemma zip4_chunk_In (a b : list Q) (c : list ref) (d : list nat) (x : scored) :
  In x (zip4 a b c d) -> In (scored_chunk x) c.
Proof.
  intro Hin. apply In_nth_error in Hin as [j Hj].
  apply zip4_nth_error in Hj as (_ & _ & Hc & _).
  apply (nth_error_In _ _ Hc).
Qed.

Section RerankerEdges.
Variable E : Collaborators.

Lemma mean_rows_of_empty_rows (rows : list (list Q)) :
  rows <> [] -> Forall (fun row => row = []) rows ->
  exists v, Np.mean_rows rows = Ok v.
Proof.
  intros Hne Hall.
  destruct (@mean_rows_spec rows 0 Hne) as (v & Hv & _).
  - rewrite Forall_forall in *. intros row Hrow. rewrite (Hall row Hrow).
    reflexivity.
  - exists v. exact Hv.
Qed.

Lemma amin_of_empty_rows (rows : list (list Q)) :
  rows <> [] -> Forall (fun row => row = []) rows ->
  Np.amin rows = Raise ValueError.
Proof.
  intros Hne Hall. destruct rows as [|r0 rest]; [contradiction|].
  unfold Np.amin. destruct (forallb _ rest); [|reflexivity].
  rewrite concat_empty_rows; [reflexivity|].
  rewrite Forall_forall in *. intros row Hrow. rewrite (Hall row Hrow).
  reflexivity.
Qed.

(** X6.  [rerank_chunks] does not return when there is nothing to rerank
    (no chunks, or [num_rerank = 0]): with the ensemble answering an empty
    passage list by rows without scores, the call ends in the exception of
    the ensemble, in [ZeroDivisionError] when the ensemble has no model
    ([0 / 0] in the mean), and else in the [ValueError] of [numpy.min] on
    an array without entries. *)
Theorem rerank_chunks_raises_on_empty_head (range_min range_max : Z)
    (h : heap) (q : SearchQuery) (chunks_to_rerank : list ref) :
  (forall S, predict E (query q) [] = Ok S -> Forall (fun row => row = []) S) ->
  Py.slice_to (num_rerank q) chunks_to_rerank = [] ->
  rerank_chunks E range_min range_max h q chunks_to_rerank
  = match predict E (query q) [] with
    | Raise e => Raise e
    | Ok [] => Raise ZeroDivisionError
    | Ok (_ :: _) => Raise ValueError
    end.
Proof.
  intros Hshape Hhead. unfold rerank_chunks, semantic_reranking.
  rewrite Hhead. simpl map.
  destruct (predict E (query q) []) as [S|e] eqn:Hp; [|reflexivity].
  cbn [bind]. destruct S as [|r0 rest]; [reflexivity|].
  specialize (Hshape _ eq_refl).
  destruct (@mean_rows_of_empty_rows (r0 :: rest)) as (v & Hv);
    [discriminate | exact Hshape |].
  rewrite Hv. cbn [bind].
  rewrite amin_of_empty_rows; [reflexivity | discriminate | exact Hshape].
Qed.

(** The heap a returning [semantic_reranking] leaves: only chunks of its
    input are written. *)
Lemma semantic_reranking_writes_inside (h h1 : heap) (query_text : string)
    (chunks : list ref) (model_min model_max : Z) (r : list ref * list nat) :
  semantic_reranking E h query_text chunks model_min model_max = Ok (h1, r) ->
  forall x, ~ In x chunks -> h1 x = h x.
Proof.
  unfold semantic_reranking. intro Hrun.
  destruct (predict E query_text _) as [S|e]; [|discriminate].
  cbn [bind] in Hrun.
  destruct (Np.mean_rows S) as [raw|e]; [|discriminate]. cbn [bind] in Hrun.
  destruct (Np.amin S) as [cross_min|e]; [|discriminate]. cbn [bind] in Hrun.
  destruct (Np.mean_rows (map _ S)) as [shifted|e]; [|discriminate].
  cbn [bind] in Hrun.
  destruct (Np.multiply shifted _) as [b1|e]; [|discriminate].
  cbn [bind] in Hrun.
  destruct (Np.multiply b1 _) as [b2|e]; [|discriminate]. cbn [bind] in Hrun.
  destruct (Np.divide_scalar _ _) as [normalized|e]; [|discriminate].
  cbn [bind] in Hrun.
  destruct (Py.sorted_desc scored_key _) as [|x0 rest] eqn:Hsr; [discriminate|].
  injection Hrun as <- _. intros x Hx.
  apply (assign_scores_untouched
           (combine (map scored_chunk (x0 :: rest)) (map scored_key (x0 :: rest)))).
  rewrite map_fst_combine by (rewrite !length_map; reflexivity).
  intro Hin. apply Hx. apply in_map_iff in Hin as (y & <- & Hy).
  rewrite <- Hsr in Hy. apply (proj1 (sorted_desc_In _ _ _)) in Hy.
  apply (zip4_chunk_In _ _ _ _ _ Hy).
Qed.

Lemma clear_scores_untouched (l : list ref) (h : heap) (x : ref) :
  ~ In x l -> clear_scores h l x = h x.
Proof.
  unfold clear_scores. revert h.
  induction l as [|r t IH]; intros h Hx; simpl; [reflexivity|].
  rewrite IH by (intro H; apply Hx; right; exact H).
  apply set_score_other. intro Heq. apply Hx. left. symmetry. exact Heq.
Qed.

(** X7.  [rerank_chunks] writes scores and nothing else: after a returning
    call every chunk has the document id, chunk id, content, boost and
    recency bias it had, and a chunk that is not in the input list is left
    exactly as it was, score included. *)
Theorem rerank_chunks_writes_scores_only (range_min range_max : Z)
    (h h' : heap) (q : SearchQuery) (chunks_to_rerank ranked : list ref) :
  rerank_chunks E range_min range_max h q chunks_to_rerank = Ok (h', ranked) ->
  (forall x, same_fields (h x) (h' x)) /\
  (forall x, ~ In x chunks_to_rerank -> h' x = h x).
Proof.
  intro Hrun. split.
  - apply (@rerank_chunks_fields E range_min range_max h h' q chunks_to_rerank
             ranked Hrun).
  - unfold rerank_chunks in Hrun.
    destruct (semantic_reranking E h (query q) _ range_min range_max)
      as [[h1 [ranked_chunks idx]]|e] eqn:Hsem; [|discriminate].
    cbn [bind] in Hrun. injection Hrun as <- _. intros x Hx.
    rewrite clear_scores_untouched.
    + apply (@semantic_reranking_writes_inside h h1 (query q) _ range_min
               range_max _ Hsem).
      intro Hin. apply Hx. rewrite <- (slice_app (num_rerank q) chunks_to_rerank).
      apply in_or_app. left. exact Hin.
    + intro Hin. apply Hx. rewrite <- (slice_app (num_rerank q) chunks_to_rerank).
      apply in_or_app. right. exact Hin.
Qed.


End RerankerEdges.

(** ** RelevanceFilter and Pipeline *)

Lemma all_true_mask {A : Type} (l : list A) :
  Forall (fun b : bool => b = true) (map (fun _ => true) l).
Proof. induction l; simpl; constructor; [reflexivity | assumption]. Qed.

Section PipelineEdges.
Variable E : Collaborators.
Variables range_min range_max : Z.

Lemma select_relevant_short (h : heap) (selection : list bool)
    (chunks : list ref) (ind : nat) :
  (ind <= length selection)%nat ->
  (length selection < ind + length chunks)%nat ->
  select_relevant E h selection ind chunks = Raise IndexError.
Proof.
  revert ind.
  induction chunks as [|c chunks IH]; intros ind Hind Hlen; simpl in *.
  - lia.
  - destruct (nth_error selection ind) as [keep|] eqn:Hk; [|reflexivity].
    assert (ind < length selection)%nat
      by (apply nth_error_Some; congruence).
    rewrite IH by lia. reflexivity.
Qed.

Lemma select_relevant_length (h : heap) (selection : list bool)
    (chunks : list ref) (ind : nat) (ids : list string) :
  select_relevant E h selection ind chunks = Ok ids ->
  (length ids <= length chunks)%nat.
Proof.
  revert ind ids. induction chunks as [|c chunks IH]; intros ind ids; simpl.
  - intros [= <-]. simpl. lia.
  - destruct (nth_error selection ind) as [keep|]; [|discriminate].
    destruct (select_relevant E h selection (S ind) chunks) as [rest|e] eqn:Hr;
      [|discriminate].
    cbn [bind]. intros [= <-]. specialize (IH _ _ Hr).
    destruct keep; simpl; lia.
Qed.

(** X9.  [filter_chunks] judges at most the first [max_llm_filter_chunks]
    chunks.  An exception of the judge is the exception of the call; a
    judge that answers with fewer verdicts than chunks judged makes the
    call end in [IndexError]; otherwise the call returns at most one id
    per judged chunk. *)
Theorem filter_chunks_needs_a_verdict_per_chunk (h : heap) (q : SearchQuery)
    (chunks_to_filter : list ref) :
  let judged := Py.slice_to (max_llm_filter_chunks q) chunks_to_filter in
  let answer :=
    llm_batch_eval_chunks E (query q) (map (fun c => content (h c)) judged) in
  (forall e, answer = Raise e ->
             filter_chunks E h q chunks_to_filter = Raise e) /\
  (forall verdicts, answer = Ok verdicts ->
     (length verdicts < length judged)%nat ->
     filter_chunks E h q chunks_to_filter = Raise IndexError) /\
  (forall verdicts, answer = Ok verdicts ->
     (length judged <= length verdicts)%nat ->
     exists ids, filter_chunks E h q chunks_to_filter = Ok ids /\
                 (length ids <= length judged)%nat).
Proof.
  intros judged answer. unfold filter_chunks. fold judged. fold answer.
  split; [|split].
  - intros e ->. reflexivity.
  - intros verdicts -> Hlen. cbn [bind].
    apply select_relevant_short; simpl; [lia | exact Hlen].
  - intros verdicts -> Hlen. cbn [bind].
    destruct (@select_relevant_spec E h verdicts judged 0) as (ids & Hrun & _);
      [simpl; exact Hlen|].
    exists ids. split; [exact Hrun|].
    apply (select_relevant_length _ _ _ _ Hrun).
Qed.


Lemma filter_chunks_judge_raises (h hf : heap) (q : SearchQuery)
    (chunks : list ref) (e : exn) :
  (forall x, same_fields (h x) (hf x)) ->
  llm_batch_eval_chunks E (query q)
    (map (fun c => content (h c))
         (Py.slice_to (max_llm_filter_chunks q) chunks)) = Raise e ->
  filter_chunks E hf q chunks = Raise e.
Proof.
  intros Hsame Hjudge. unfold filter_chunks.
  rewrite (@same_fields_contents h hf _ Hsame), Hjudge. reflexivity.
Qed.

(** X11.  The mask fails open: when the relevance filter is switched off,
    or the judge raises, every mask the generator yields marks every chunk
    as relevant. *)
Theorem mask_is_all_true_without_verdicts (h : heap) (q : SearchQuery)
    (document_index : DocumentIndex) (hybrid_alpha : Q)
    (multilingual_query_expansion : option string) :
  let retrieved :=
    retrieve_chunks E h q document_index hybrid_alpha
                    multilingual_query_expansion in
  let limit := max_llm_filter_chunks q in
  should_apply_llm_based_relevance_filter q = false \/
  (exists e,
     llm_batch_eval_chunks E (query q)
       (map (fun c => content (h c))
            (Py.slice_to limit (Py.slice_to limit retrieved))) = Raise e) ->
  forall mask,
    In (Yield_mask mask)
       (snd (full_chunk_search_generator E range_min range_max h q
               document_index hybrid_alpha multilingual_query_expansion)) ->
    Forall (fun b => b = true) mask.
Proof.
  intros retrieved limit Hcase mask.
  unfold full_chunk_search_generator. fold retrieved.
  destruct retrieved as [|c0 cs] eqn:Hret.
  { simpl. intros [H|[H|[]]]; [discriminate H|]. injection H as <-. constructor. }
  assert (Hlast : forall (pre : list yielded) (m : list bool),
            (forall y, In y pre -> exists l, y = Yield_chunks l) ->
            Forall (fun b => b = true) m ->
            In (Yield_mask mask) (pre ++ [Yield_mask m]) ->
            Forall (fun b => b = true) mask).
  { intros pre m Hpre Hm Hin. apply in_app_or in Hin as [Hin|[Hin|[]]].
    - destruct (Hpre _ Hin) as [l Hl]. discriminate Hl.
    - injection Hin as <-. exact Hm. }
  assert (Hone : forall l y, In y [Yield_chunks l] -> exists l', y = Yield_chunks l').
  { intros l y [<-|[]]. eexists. reflexivity. }
  assert (Hnone : forall y, In y (@nil yielded) -> exists l', y = Yield_chunks l').
  { intros y []. }
  destruct (should_apply_llm_based_relevance_filter q) eqn:Hf.
  - destruct Hcase as [Hoff|[e Hjudge]]; [discriminate Hoff|].
    fold limit.
    destruct (should_rerank q); cbn [app length];
      cbn [run_functions_in_parallel execute].
    + destruct (rerank_chunks E range_min range_max h q (c0 :: cs))
        as [[h1 ranked]|e'] eqn:Hrr; cbn [bind fst snd].
      * rewrite (@filter_chunks_judge_raises h h1 q _ e
                   (@rerank_chunks_fields E range_min range_max h h1 q _ _ Hrr)
                   Hjudge).
        cbn [bind]. destruct ranked as [|r0 rs];
          cbn -[Py.slice_to]; intro Hin.
        -- apply (Hlast [] _ Hnone (all_true_mask (c0 :: cs)) Hin).
        -- apply (Hlast [Yield_chunks (r0 :: rs)] _ (Hone _)
                    (all_true_mask (r0 :: rs)) Hin).
      * rewrite (@filter_chunks_judge_raises h h q _ e
                   (fun x => same_fields_refl (h x)) Hjudge).
        cbn [bind]. cbn -[Py.slice_to]. intro Hin.
        apply (Hlast [] _ Hnone (all_true_mask (c0 :: cs)) Hin).
    + rewrite (@filter_chunks_judge_raises h h q _ e
                 (fun x => same_fields_refl (h x)) Hjudge).
      cbn [bind]. cbn -[Py.slice_to]. intro Hin.
      apply (Hlast [Yield_chunks (c0 :: cs)] _ (Hone _)
               (all_true_mask (c0 :: cs)) Hin).
  - destruct (should_rerank q); cbn [app length].
    + cbn [run_functions_in_parallel execute].
      destruct (rerank_chunks E range_min range_max h q (c0 :: cs))
        as [[h1 ranked]|e'] eqn:Hrr; cbn [bind fst snd].
      * destruct ranked as [|r0 rs]; cbn; intro Hin.
        -- apply (Hlast [] _ Hnone (all_true_mask (c0 :: cs)) Hin).
        -- apply (Hlast [Yield_chunks (r0 :: rs)] _ (Hone _)
                    (all_true_mask (r0 :: rs)) Hin).
      * cbn. intro Hin.
        apply (Hlast [] _ Hnone (all_true_mask (c0 :: cs)) Hin).
    + cbn. intro Hin.
      apply (Hlast [Yield_chunks (c0 :: cs)] _ (Hone _)
               (all_true_mask (c0 :: cs)) Hin).
Qed.


End PipelineEdges.

(** ** ResultMerger and retrieval *)

Lemma best_of_is_maximum (h : heap) (all : list ref) (r : ref) :
  best_of h all r ->
  In r all /\
  forall x, In x all -> key_of h x = key_of h r ->
            (score_or_0 h x <= score_or_0 h r)%Q.
Proof.
  intros (p1 & p2 & -> & H1 & H2). split.
  - apply in_or_app. right. left. reflexivity.
  - intros x Hx Hk. apply in_app_or in Hx as [Hx|[<-|Hx]].
    + apply Qlt_le_weak, H1; assumption.
    + apply Qle_refl.
    + apply H2; assumption.
Qed.

Lemma merged_best_of (h : heap) (chunk_sets : list (list ref)) (r : ref) :
  In r (combine_retrieval_results h chunk_sets) ->
  best_of h (concat chunk_sets) r.
Proof.
  intro Hr. pose proof (combine_retrieval_results_inv h chunk_sets) as Hinv.
  unfold combine_retrieval_results in Hr.
  apply (proj1 (sorted_desc_In _ _ _)) in Hr.
  unfold Dict.values in Hr. apply in_map_iff in Hr as ([k v] & <- & Hin).
  apply (inv_best Hinv _ _ Hin).
Qed.

Lemma merged_keys (h : heap) (chunk_sets : list (list ref)) (k : chunk_key) :
  In k (map (key_of h) (combine_retrieval_results h chunk_sets)) <->
  In k (map (key_of h) (concat chunk_sets)).
Proof.
  pose proof (combine_retrieval_results_inv h chunk_sets) as Hinv.
  pose proof (merge_values_keys Hinv) as Hvk.
  rewrite <- (inv_keys Hinv), <- Hvk. unfold combine_retrieval_results.
  split; apply Permutation_in, Permutation_map;
    [apply sorted_desc_perm | apply Permutation_sym, sorted_desc_perm].
Qed.

(** X13.  The merged result does not depend on the order in which the
    retrievals come back, up to ties: two mergers of the same chunks, listed
    in any order and grouping, return the same keys, and the chunks they
    keep for a key have the same score. *)
Theorem merged_scores_are_order_independent (h : heap)
    (xss yss : list (list ref)) :
  Permutation (concat xss) (concat yss) ->
  (forall k, In k (map (key_of h) (combine_retrieval_results h xss)) <->
             In k (map (key_of h) (combine_retrieval_results h yss))) /\
  (forall a b, In a (combine_retrieval_results h xss) ->
               In b (combine_retrieval_results h yss) ->
               key_of h a = key_of h b ->
               (score_or_0 h a == score_or_0 h b)%Q).
Proof.
  intro Hperm. split.
  - intro k. rewrite !merged_keys.
    split; apply Permutation_in, Permutation_map;
      [exact Hperm | apply Permutation_sym, Hperm].
  - intros a b Ha Hb Hk.
    destruct (best_of_is_maximum (merged_best_of _ _ _ Ha)) as [Hina Hmaxa].
    destruct (best_of_is_maximum (merged_best_of _ _ _ Hb)) as [Hinb Hmaxb].
    apply Qle_antisym.
    + apply Hmaxb; [apply (Permutation_in _ Hperm), Hina | exact Hk].
    + apply Hmaxa; [apply (Permutation_in _ (Permutation_sym Hperm)), Hinb|].
      symmetry. exact Hk.
Qed.

Section Retrieval.
Variable E : Collaborators.

(** X14.  [retrieve_chunks] expands a query only when an expansion is
    configured and the query has no line break: otherwise it returns what
    the one retrieval of the original query returns.  With the expansion,
    it returns a merged list: keys are distinct, scores descend, and every
    chunk comes from the retrieval of one of the expanded queries. *)
Theorem retrieve_chunks_expands_single_line_queries (h : heap)
    (q : SearchQuery) (document_index : DocumentIndex) (hybrid_alpha : Q)
    (multilingual_query_expansion : option string) :
  let retrieved :=
    retrieve_chunks E h q document_index hybrid_alpha
                    multilingual_query_expansion in
  (expansion_disabled multilingual_query_expansion = true \/
   Py.contains_char newline (query q) = true \/
   Py.contains_char carriage_return (query q) = true ->
   retrieved = doc_index_retrieval q document_index hybrid_alpha) /\
  (forall languages,
     multilingual_query_expansion = Some languages ->
     expansion_disabled multilingual_query_expansion = false ->
     Py.contains_char newline (query q) = false ->
     Py.contains_char carriage_return (query q) = false ->
     NoDup (map (key_of h) retrieved) /\
     StronglySorted (desc (score_or_0 h)) retrieved /\
     forall r, In r retrieved ->
       exists rephrase,
         In rephrase (expanded_queries E (query q) languages) /\
         In r (doc_index_retrieval (copy_with_query q rephrase) document_index
                                   hybrid_alpha)).
Proof.
  intro retrieved. unfold retrieved, retrieve_chunks. split.
  - intro Hskip.
    assert (Hc : expansion_disabled multilingual_query_expansion
                 || Py.contains_char newline (query q)
                 || Py.contains_char carriage_return (query q) = true).
    { destruct Hskip as [-> | [-> | ->]];
        rewrite ?orb_true_r; reflexivity. }
    rewrite Hc. destruct (doc_index_retrieval q document_index hybrid_alpha);
      reflexivity.
  - intros languages -> Hd Hn Hr. rewrite Hd, Hn, Hr. cbn [orb].
    set (results := run_functions_tuples_in_parallel _ _).
    assert (Hout : match combine_retrieval_results h results with
                   | [] => []
                   | _ :: _ => combine_retrieval_results h results
                   end = combine_retrieval_results h results)
      by (destruct (combine_retrieval_results h results); reflexivity).
    rewrite Hout. split; [apply merged_keys_distinct|].
    split; [apply sorted_desc_sorted|].
    intros r Hin. apply merged_best_of, best_of_is_maximum in Hin as [Hin _].
    apply in_concat in Hin as (l & Hl & Hrl).
    unfold results, run_functions_tuples_in_parallel in Hl.
    rewrite map_map in Hl. apply in_map_iff in Hl as (rephrase & <- & Hre).
    exists rephrase. split; assumption.
Qed.

End Retrieval.

(** ** Display *)

Lemma top_links_raise (d : display) (chunks : list ref) :
  top_links d chunks = None <->
  exists c, In c chunks /\ top_link (source_links (d c)) = None.
Proof.
  induction chunks as [|c rest IH]; simpl.
  - split; [discriminate | intros (c & [] & _)].
  - destruct (top_link (source_links (d c))) as [link|] eqn:Hl.
    + destruct (top_links d rest) as [links|].
      * split; [discriminate|]. intros (c' & [<-|Hin] & Hc'); [congruence|].
        assert (Hno : Some links = None)
          by (apply (proj2 IH); exists c'; split; assumption).
        discriminate Hno.
      * split; [|reflexivity]. intros _.
        destruct (proj1 IH eq_refl) as (c' & Hin & Hc').
        exists c'. split; [right; exact Hin | exact Hc'].
    + split; [|reflexivity]. intros _. exists c. split; [left; reflexivity | exact Hl].
Qed.

(** X15.  [chunks_to_search_docs] tolerates what it is given: no list and
    the empty list give no documents; chunks without a semantic identifier
    are dropped and the others are projected in their order, with the id,
    boost and score of the chunk; a chunk without links, or whose links lack
    the offset 0, gets no link instead of an error. *)
Theorem chunks_to_search_docs_projects_titled_chunks (h : heap) (d : display) :
  chunks_to_search_docs h d None = [] /\
  forall chunks,
    let titled :=
      filter (fun c => str_truthy (semantic_identifier (d c))) chunks in
    let docs := chunks_to_search_docs h d (Some chunks) in
    (length docs <= length chunks)%nat /\
    map Doc.document_id docs = map (fun c => document_id (h c)) titled /\
    map Doc.score docs = map (fun c => score (h c)) titled /\
    map Doc.boost docs = map (fun c => boost (h c)) titled /\
    (forall doc, In doc docs -> Doc.semantic_identifier doc <> EmptyString) /\
    (forall c, In c titled ->
       (source_links (d c) = None \/
        exists links, source_links (d c) = Some links /\
                      Dict.get Z.eq_dec links 0%Z = None) ->
       Doc.link (to_search_doc h d c) = None).
Proof.
  split; [reflexivity|]. intros chunks titled docs.
  assert (Hdocs : docs = map (to_search_doc h d) titled).
  { unfold docs, titled, chunks_to_search_docs.
    destruct chunks; reflexivity. }
  rewrite Hdocs. split; [|split; [|split; [|split; [|split]]]].
  - rewrite length_map. apply filter_length_le.
  - rewrite map_map. reflexivity.
  - rewrite map_map. reflexivity.
  - rewrite map_map. reflexivity.
  - intros doc Hdoc. apply in_map_iff in Hdoc as (c & <- & Hc).
    apply filter_In in Hc as [_ Ht]. simpl.
    destruct (semantic_identifier (d c)); [discriminate Ht | discriminate].
  - intros c _ [Hnone|(links & Hsome & Hget)]; simpl.
    + rewrite Hnone. reflexivity.
    + rewrite Hsome. destruct links; [reflexivity | exact Hget].
Qed.

(** X16.  [_log_top_chunk_links] is stricter than the projection to
    [SearchDoc]: it raises [KeyError] exactly when some chunk has links that
    lack the offset 0, an empty dict of links included, where
    [chunks_to_search_docs] gives the document no link; chunks without any
    links are logged as "No Link". *)
Theorem log_top_chunk_links_needs_offset_zero (d : display)
    (search_flow : string) (chunks : list ref) :
  (_log_top_chunk_links d search_flow chunks = None <->
   exists c links, In c chunks /\ source_links (d c) = Some links /\
                   Dict.get Z.eq_dec links 0%Z = None) /\
  (forall c, In c chunks -> source_links (d c) = Some [] ->
             _log_top_chunk_links d search_flow chunks = None /\
             first_link_or_none (source_links (d c)) = None) /\
  ((forall c, In c chunks -> source_links (d c) = None) ->
   _log_top_chunk_links d search_flow chunks
   = Some ("Top links from " ++ search_flow ++ " search: "
           ++ String.concat ", " (map (fun _ => "No Link") chunks))%string).
Proof.
  assert (Hiff : _log_top_chunk_links d search_flow chunks = None <->
                 exists c links, In c chunks /\ source_links (d c) = Some links /\
                                 Dict.get Z.eq_dec links 0%Z = None).
  { unfold _log_top_chunk_links.
    destruct (top_links d chunks) as [links|] eqn:Ht.
    - split; [discriminate|]. intros (c & l & Hin & Hs & Hg).
      assert (Hn : top_links d chunks = None).
      { apply top_links_raise. exists c. split; [exact Hin|].
        rewrite Hs. exact Hg. }
      congruence.
    - split; [|reflexivity]. intros _.
      destruct (proj1 (top_links_raise d chunks) Ht) as (c & Hin & Hc).
      destruct (source_links (d c)) as [l|] eqn:Hs; [|discriminate Hc].
      exists c, l. repeat split; assumption. }
  split; [exact Hiff|]. split.
  - intros c Hin Hs. split.
    + apply Hiff. exists c, []. repeat split; assumption.
    + rewrite Hs. reflexivity.
  - intro Hall. unfold _log_top_chunk_links.
    assert (Ht : top_links d chunks = Some (map (fun _ => "No Link"%string) chunks)).
    { clear Hiff. induction chunks as [|c rest IH]; simpl; [reflexivity|].
      rewrite (Hall c) by (left; reflexivity). simpl.
      rewrite IH by (intros x Hx; apply Hall; right; exact Hx). reflexivity. }
    rewrite Ht. reflexivity.
Qed.

(** ** Runs of the further functions *)

Example stop_words_and_punctuation_removed :
  remove_stop_words_and_punctuation SampleText.english
    "What is the boost of chunks ?"
  = ["boost"; "chunks"]%string /\
  query_processing SampleText.english "What is the boost of chunks ?"
  = "boost chunk"%string /\
  remove_stop_words_and_punctuation SampleText.english "what is the ?"
  = ["what"; "is"; "the"; "?"]%string.
Proof. repeat split; vm_compute; reflexivity. Qed.

Example legacy_boost_on_equal_scores :
  exists h',
    apply_boost_legacy Sample.models Sample.boosted_pair [0; 1]%nat 0 1
    = Ok (h', [1; 0]%nat) /\
    score (h' 1%nat) = Some (((1 # 2) * 2 - 0) / (1 - 0))%Q /\
    score (h' 0%nat) = Some (((1 # 2) * 1 - 0) / (1 - 0))%Q.
Proof.
  eexists. split; [vm_compute; reflexivity|]. split; vm_compute; reflexivity.
Qed.

Example search_docs_of_four_chunks :
  map (fun doc => (Doc.document_id doc, Doc.semantic_identifier doc,
                   Doc.link doc))
      (chunks_to_search_docs Sample.retrieved_twice SampleText.titles
                             (Some [0; 1; 2; 3]%nat))
  = [("a", "Title", Some "http://a"); ("a", "Empty", None);
     ("c", "Bare", None)]%string.
Proof. vm_compute. reflexivity. Qed.

Example top_links_logged :
  _log_top_chunk_links SampleText.titles "keyword" [0; 1; 3]%nat
  = Some "Top links from keyword search: http://a, http://b, No Link"%string /\
  _log_top_chunk_links SampleText.titles "keyword" [0; 2]%nat = None.
Proof. split; vm_compute; reflexivity. Qed.

Lemma apply_boost_returns_on_proper_range_witness :
  (0 < 1)%Q /\
  Py.slice_to 2 [0; 1; 2]%nat <> [] /\
  exists h' final_chunks,
    apply_boost Sample.models Sample.chunks3 [0; 1; 2]%nat 2 0 1
    = Ok (h', final_chunks) /\
    Permutation final_chunks [0; 1; 2]%nat /\
    forall r, In r final_chunks ->
              exists s, score (h' r) = Some s /\ (0 <= s)%Q.
Proof.
  split; [reflexivity|]. split; [discriminate|].
  apply (@apply_boost_returns_on_proper_range Sample.models Sample.chunks3
           [0; 1; 2]%nat 2 0 1); [reflexivity | discriminate].
Defined.


Lemma rerank_chunks_raises_on_empty_head_witness :
  Py.slice_to 0 [0; 1; 2]%nat = [] /\
  predict Sample.models "what is alpha" [] = Ok [[]] /\
  rerank_chunks Sample.models (-12) 12 Sample.chunks3
                (Sample.semantic_query 0 2 false false) [0; 1; 2]%nat
  = Raise ValueError.
Proof.
  split; [reflexivity|]. split; [reflexivity|].
  apply (@rerank_chunks_raises_on_empty_head Sample.models (-12) 12
           Sample.chunks3 (Sample.semantic_query 0 2 false false)
           [0; 1; 2]%nat).
  - intros S HS. injection HS as <-. constructor; [reflexivity | constructor].
  - reflexivity.
Defined.

Lemma rerank_chunks_writes_scores_only_witness :
  exists h' ranked,
    rerank_chunks Sample.models (-12) 12 Sample.chunks3
                  (Sample.semantic_query 2 2 false false) [0; 1; 2]%nat
    = Ok (h', ranked) /\
    (forall x, same_fields (Sample.chunks3 x) (h' x)) /\
    (forall x, ~ In x [0; 1; 2]%nat -> h' x = Sample.chunks3 x).
Proof.
  destruct (rerank_chunks Sample.models (-12) 12 Sample.chunks3
              (Sample.semantic_query 2 2 false false) [0; 1; 2]%nat)
    as [[h' ranked]|e] eqn:Hrun.
  - exists h', ranked. split; [reflexivity|].
    apply (@rerank_chunks_writes_scores_only Sample.models (-12) 12
             Sample.chunks3 h' (Sample.semantic_query 2 2 false false)
             [0; 1; 2]%nat ranked Hrun).
  - vm_compute in Hrun. discriminate Hrun.
Defined.



Lemma mask_is_all_true_without_verdicts_witness :
  should_apply_llm_based_relevance_filter
    (Sample.semantic_query 2 2 false true) = false /\
  Forall (fun b => b = true) [true; true; true].
Proof.
  split; [reflexivity|].
  apply (@mask_is_all_true_without_verdicts Sample.models (-12) 12
           Sample.chunks3 (Sample.semantic_query 2 2 false true) Sample.index3
           (1 # 2) None).
  - left. reflexivity.
  - vm_compute. right. left. reflexivity.
Defined.


Lemma merged_scores_are_order_independent_witness :
  Permutation (concat [[0; 1]; [2; 3]]%nat) (concat [[2; 3]; [0; 1]]%nat) /\
  (forall k,
     In k (map (key_of Sample.retrieved_twice)
               (combine_retrieval_results Sample.retrieved_twice
                  [[0; 1]; [2; 3]]%nat)) <->
     In k (map (key_of Sample.retrieved_twice)
               (combine_retrieval_results Sample.retrieved_twice
                  [[2; 3]; [0; 1]]%nat))) /\
  (forall a b,
     In a (combine_retrieval_results Sample.retrieved_twice
             [[0; 1]; [2; 3]]%nat) ->
     In b (combine_retrieval_results Sample.retrieved_twice
             [[2; 3]; [0; 1]]%nat) ->
     key_of Sample.retrieved_twice a = key_of Sample.retrieved_twice b ->
     (score_or_0 Sample.retrieved_twice a
      == score_or_0 Sample.retrieved_twice b)%Q).
Proof.
  assert (Hperm : Permutation (concat [[0; 1]; [2; 3]]%nat)
                              (concat [[2; 3]; [0; 1]]%nat))
    by apply (Permutation_app_comm [0; 1]%nat [2; 3]%nat).
  split; [exact Hperm|].
  apply (@merged_scores_are_order_independent Sample.retrieved_twice
           [[0; 1]; [2; 3]]%nat [[2; 3]; [0; 1]]%nat Hperm).
Defined.
